(** * SnakeGame: a shallow embedding of [src/SnakeGame.tsx]

    The React component keeps its state in six [useState] cells and one
    [useRef] cell.  Every handler of the component is embedded as a function
    on a record holding those cells.  Coordinates and the score are
    JavaScript numbers that only ever hold small integers, so they are
    modelled as [Z].  [Math.random] is the one source of nondeterminism: it is
    a section variable giving the value of each successive call, and the
    state counts the calls made so far.  The [while] loops that redraw the
    food have no bound in the source; they are embedded with a fuel argument
    and answer [None] when the fuel is exhausted before the loop exits. *)

From Stdlib Require Import ZArith QArith Qround List String Bool Lia.
Import ListNotations.

Open Scope string_scope.
Open Scope Z_scope.

(** ** Data model (lines 4-18) *)

Record Position : Type := mkPosition { x : Z; y : Z }.

Inductive Direction : Type := UP | DOWN | LEFT | RIGHT.

Definition GRID_SIZE : Z := 20.

Definition INITIAL_SNAKE : list Position :=
  [ {| x := 10; y := 10 |};
    {| x := 10; y := 11 |};
    {| x := 10; y := 12 |} ].

Definition INITIAL_DIRECTION : Direction := UP.

(** [segment.x === pos.x && segment.y === pos.y], the comparison used at
    lines 42, 155 and 163. *)
Definition samePosition (a b : Position) : bool :=
  (x a =? x b) && (y a =? y b).

Definition Direction_eqb (a b : Direction) : bool :=
  match a, b with
  | UP, UP | DOWN, DOWN | LEFT, LEFT | RIGHT, RIGHT => true
  | _, _ => false
  end.

(** A cell of the board: both coordinates in [0, GRID_SIZE). *)
Definition inGrid (p : Position) : Prop :=
  0 <= x p < GRID_SIZE /\ 0 <= y p < GRID_SIZE.

(** ** Component state (lines 21-28)

    [draws] is not a cell of the component: it counts the calls of
    [Math.random] made so far, so that the next call is [random draws]. *)

Record Game : Type := mkGame {
  snake : list Position;
  food : Position;
  gameOver : bool;
  score : Z;
  isPaused : bool;
  gameStarted : bool;
  directionRef : Direction;
  draws : nat
}.

Definition setSnake (v : list Position) (g : Game) : Game :=
  mkGame v (food g) (gameOver g) (score g) (isPaused g) (gameStarted g)
         (directionRef g) (draws g).
Definition setFood (v : Position) (g : Game) : Game :=
  mkGame (snake g) v (gameOver g) (score g) (isPaused g) (gameStarted g)
         (directionRef g) (draws g).
Definition setGameOver (v : bool) (g : Game) : Game :=
  mkGame (snake g) (food g) v (score g) (isPaused g) (gameStarted g)
         (directionRef g) (draws g).
Definition setScore (v : Z) (g : Game) : Game :=
  mkGame (snake g) (food g) (gameOver g) v (isPaused g) (gameStarted g)
         (directionRef g) (draws g).
Definition setIsPaused (v : bool) (g : Game) : Game :=
  mkGame (snake g) (food g) (gameOver g) (score g) v (gameStarted g)
         (directionRef g) (draws g).
Definition setGameStarted (v : bool) (g : Game) : Game :=
  mkGame (snake g) (food g) (gameOver g) (score g) (isPaused g) v
         (directionRef g) (draws g).
Definition setDirectionRef (v : Direction) (g : Game) : Game :=
  mkGame (snake g) (food g) (gameOver g) (score g) (isPaused g)
         (gameStarted g) v (draws g).
Definition setDraws (v : nat) (g : Game) : Game :=
  mkGame (snake g) (food g) (gameOver g) (score g) (isPaused g)
         (gameStarted g) (directionRef g) v.

(** The state of the first render, before the mount effect has run. *)
Definition firstRender : Game :=
  {| snake := INITIAL_SNAKE;
     food := {| x := 15; y := 15 |};
     gameOver := false;
     score := 0;
     isPaused := false;
     gameStarted := false;
     directionRef := INITIAL_DIRECTION;
     draws := 0%nat |}.

(** The four game states of the specification, read off the flags the way
    the overlays of the render function do (lines 219, 232, 242). *)
Inductive GameState : Type := NotStarted | Running | Paused | GameOver.

Definition gameState (g : Game) : GameState :=
  if negb (gameStarted g) then NotStarted
  else if gameOver g then GameOver
  else if isPaused g then Paused
  else Running.

(** ** Pure helpers of the handlers *)

(** [isValidFoodPosition] (lines 41-43). *)
Definition isValidFoodPosition (pos : Position) (snakeBody : list Position)
  : bool :=
  negb (existsb (fun segment => samePosition segment pos) snakeBody).

(** The [keyMap] table (lines 81-92).  Keys are the [KeyboardEvent.key]
    values a keyboard produces; any key outside the table yields
    [undefined], here [None]. *)
Definition keyMap (key : string) : option Direction :=
  if String.eqb key "ArrowUp" then Some UP
  else if String.eqb key "ArrowDown" then Some DOWN
  else if String.eqb key "ArrowLeft" then Some LEFT
  else if String.eqb key "ArrowRight" then Some RIGHT
  else if String.eqb key "w" then Some UP
  else if String.eqb key "s" then Some DOWN
  else if String.eqb key "a" then Some LEFT
  else if String.eqb key "d" then Some RIGHT
  else None.

(** The [oppositeDirections] table (lines 95-100). *)
Definition oppositeDirections (d : Direction) : Direction :=
  match d with
  | UP => DOWN
  | DOWN => UP
  | LEFT => RIGHT
  | RIGHT => LEFT
  end.

(** The [switch] on the current direction (lines 128-141). *)
Definition moveHead (currentDirection : Direction) (head : Position)
  : Position :=
  match currentDirection with
  | UP => {| x := x head; y := y head - 1 |}
  | DOWN => {| x := x head; y := y head + 1 |}
  | LEFT => {| x := x head - 1; y := y head |}
  | RIGHT => {| x := x head + 1; y := y head |}
  end.

(** The wall test (lines 144-149). *)
Definition hitsWall (head : Position) : bool :=
  (x head <? 0) || (x head >=? GRID_SIZE) ||
  (y head <? 0) || (y head >=? GRID_SIZE).

(** The self-collision test (line 155): the moved head against the whole
    snake as it was before the move. *)
Definition hitsSelf (head : Position) (prevSnake : list Position) : bool :=
  existsb (fun segment => samePosition segment head) prevSnake.

(** [startGame] (lines 190-193). *)
Definition startGame (g : Game) : Game :=
  setIsPaused false (setGameStarted true g).

(** Two fixed random sources used to run the handlers on examples: one that
    always answers 1/2, and one that answers 1/2 then 9/20 and 3/4 ever
    after. *)
Definition alwaysHalf (n : nat) : Q := 1 # 2.

Definition scriptedSource (n : nat) : Q :=
  match n with
  | O => 1 # 2
  | S O => 9 # 20
  | _ => 3 # 4
  end.

(** Fixed states used to run the handlers on examples. *)

(** The mounted component when the first food lands on (10, 9). *)
Definition mountedGame : Game :=
  setFood {| x := 10; y := 9 |} (setDraws 2%nat firstRender).

(** That game once the start button has been clicked. *)
Definition runningGame : Game := startGame mountedGame.

(** A running game whose snake has curled so that the cell below its head
    is its own tail. *)
Definition curledGame : Game :=
  {| snake := [ {| x := 5; y := 5 |}; {| x := 6; y := 5 |};
                {| x := 6; y := 6 |}; {| x := 5; y := 6 |} ];
     food := {| x := 15; y := 15 |};
     gameOver := false;
     score := 10;
     isPaused := false;
     gameStarted := true;
     directionRef := DOWN;
     draws := 4%nat |}.

(** A running game whose snake heads left along the left wall. *)
Definition leftEdgeGame : Game :=
  {| snake := [ {| x := 0; y := 3 |}; {| x := 1; y := 3 |};
                {| x := 2; y := 3 |} ];
     food := {| x := 15; y := 15 |};
     gameOver := false;
     score := 0;
     isPaused := false;
     gameStarted := true;
     directionRef := LEFT;
     draws := 2%nat |}.

(** ** Handlers that draw random numbers *)

Section WithRandom.

(** [random n] is the value of the [n]-th call of [Math.random].  The
    product with [GRID_SIZE] is taken exactly, where the source rounds it to
    a double; both have the same floor range for a value in [0, 1). *)
Variable random : nat -> Q.

(** [generateFood] (lines 32-38): two calls, [x] first. *)
Definition generateFood (n : nat) : Position * nat :=
  ({| x := Qfloor (random n * inject_Z GRID_SIZE);
      y := Qfloor (random (S n) * inject_Z GRID_SIZE) |},
   S (S n)).

(** The loop [while (!isValidFoodPosition(newFood, body)) newFood =
    generateFood()] (lines 48-50, 69-71, 168-170).  [fuel] bounds the
    number of times the loop body runs. *)
Fixpoint redrawFood (fuel : nat) (newFood : Position) (n : nat)
         (body : list Position) : option (Position * nat) :=
  if isValidFoodPosition newFood body then Some (newFood, n)
  else match fuel with
       | O => None
       | S fuel' =>
           let (newFood', n') := generateFood n in
           redrawFood fuel' newFood' n' body
       end.

(** [let newFood = generateFood(); while ...], the food placement of the
    specification. *)
Definition placeFood (fuel : nat) (n : nat) (body : list Position)
  : option (Position * nat) :=
  let (newFood, n') := generateFood n in
  redrawFood fuel newFood n' body.

(** The mount effect (lines 46-52). *)
Definition initFood (fuel : nat) (g : Game) : option Game :=
  match placeFood fuel (draws g) (snake g) with
  | Some (newFood, n) => Some (setFood newFood (setDraws n g))
  | None => None
  end.

(** The six writes that open the restart branch (lines 62-67). *)
Definition resetGame (g : Game) : Game :=
  setGameStarted true
    (setIsPaused false
       (setScore 0
          (setGameOver false
             (setDirectionRef INITIAL_DIRECTION
                (setSnake INITIAL_SNAKE g))))).

(** [handleKeyPress] (lines 56-106). *)
Definition handleKeyPress (fuel : nat) (key : string) (g : Game)
  : option Game :=
  if negb (gameStarted g) && negb (String.eqb key " ") then Some g
  else if String.eqb key " " then
    if gameOver g then
      match placeFood fuel (draws g) INITIAL_SNAKE with
      | Some (newFood, n) => Some (setFood newFood (setDraws n (resetGame g)))
      | None => None
      end
    else Some (setIsPaused (negb (isPaused g)) g)
  else if isPaused g || gameOver g then Some g
  else
    match keyMap key with
    | Some newDirection =>
        if negb (Direction_eqb newDirection
                   (oppositeDirections (directionRef g)))
        then Some (setDirectionRef newDirection g)
        else Some g
    | None => Some g
    end.

(** The interval callback (lines 123-179).  On an empty snake the source
    reads [undefined] coordinates, every comparison on them is false, and
    the one-element array it builds is popped again: the snake stays
    empty and nothing else is written. *)
Definition tick (fuel : nat) (g : Game) : option Game :=
  let prevSnake := snake g in
  match prevSnake with
  | [] => Some g
  | first :: _ =>
      let head := moveHead (directionRef g) first in
      if hitsWall head then Some (setGameOver true g)
      else if hitsSelf head prevSnake then Some (setGameOver true g)
      else
        let newSnake := head :: prevSnake in
        if samePosition head (food g) then
          match placeFood fuel (draws g) newSnake with
          | Some (newFood, n) =>
              Some (setSnake newSnake
                      (setFood newFood
                         (setScore (score g + 10) (setDraws n g))))
          | None => None
          end
        else Some (setSnake (removelast newSnake) g)
  end.

(** The game-loop effect (lines 113-188): the interval exists only while
    the game is started, not paused and not over. *)
Definition gameLoop (fuel : nat) (g : Game) : option Game :=
  if negb (gameStarted g) || isPaused g || gameOver g then Some g
  else tick fuel g.

(** ** The component as a transition system *)

(** What [Math.random] promises: a value in [0, 1). *)
Definition unitSource : Prop :=
  forall n, (0 <= random n)%Q /\ (random n < 1)%Q.

(** Some cell of the board is not in [occupied]. *)
Definition hasFreeCell (occupied : list Position) : Prop :=
  exists p, inGrid p /\ ~ In p occupied.

(** The [k]-th position [generateFood] produces from call [n] on. *)
Definition candidate (n k : nat) : Position :=
  fst (generateFood (n + 2 * k)).

(** From call [n] on the source eventually produces a position that is not
    in [body]. *)
Definition eventuallyFree (n : nat) (body : list Position) : Prop :=
  exists k, isValidFoodPosition (candidate n k) body = true.

(** One event of the running component.  Key presses are always delivered;
    the interval fires only in the Running state (it is cleared otherwise);
    the start button is rendered only before the game has started. *)
Inductive step : Game -> Game -> Prop :=
| step_key fuel key g g' :
    handleKeyPress fuel key g = Some g' -> step g g'
| step_tick fuel g g' :
    gameState g = Running -> gameLoop fuel g = Some g' -> step g g'
| step_start g :
    gameStarted g = false -> step g (startGame g).

(** The states the component can commit: the mounted component, and
    whatever events lead to from there. *)
Inductive reachable : Game -> Prop :=
| reachable_mount fuel g :
    initFood fuel firstRender = Some g -> reachable g
| reachable_step g g' :
    reachable g -> step g g' -> reachable g'.

(** The snake invariant of the data model. *)
Definition snakeOk (s : list Position) : Prop :=
  s <> [] /\ NoDup s /\ Forall inGrid s.

(** What every event preserves whatever the random source answers. *)
Definition invariant (g : Game) : Prop :=
  snakeOk (snake g) /\
  ~ In (food g) (snake g) /\
  (gameStarted g = false -> gameOver g = false).

(** The eight key identifiers of [keyMap]. *)
Definition movementKeys : list string :=
  ["ArrowUp"; "ArrowDown"; "ArrowLeft"; "ArrowRight"; "w"; "s"; "a"; "d"].

(** What an event can do to the state, one constructor per branch of the
    handlers that writes something. *)
Inductive effect : Game -> Game -> Prop :=
| effect_none g :
    effect g g
| effect_restart fuel g newFood n :
    gameOver g = true ->
    placeFood fuel (draws g) INITIAL_SNAKE = Some (newFood, n) ->
    effect g (setFood newFood (setDraws n (resetGame g)))
| effect_toggle g :
    gameOver g = false ->
    effect g (setIsPaused (negb (isPaused g)) g)
| effect_turn g d :
    gameState g = Running ->
    d <> oppositeDirections (directionRef g) ->
    effect g (setDirectionRef d g)
| effect_crash g first rest :
    gameState g = Running ->
    snake g = first :: rest ->
    hitsWall (moveHead (directionRef g) first) = true \/
    In (moveHead (directionRef g) first) (snake g) ->
    effect g (setGameOver true g)
| effect_eat fuel g first rest newFood n :
    gameState g = Running ->
    snake g = first :: rest ->
    inGrid (food g) ->
    ~ In (food g) (snake g) ->
    moveHead (directionRef g) first = food g ->
    placeFood fuel (draws g) (food g :: snake g) = Some (newFood, n) ->
    effect g (setSnake (food g :: snake g)
                (setFood newFood (setScore (score g + 10) (setDraws n g))))
| effect_shift g first rest :
    gameState g = Running ->
    snake g = first :: rest ->
    inGrid (moveHead (directionRef g) first) ->
    ~ In (moveHead (directionRef g) first) (snake g) ->
    moveHead (directionRef g) first <> food g ->
    effect g (setSnake (removelast (moveHead (directionRef g) first :: snake g))
                g)
| effect_start g :
    gameStarted g = false ->
    effect g (startGame g).

(** The case analysis of an [effect], with the names the proofs use. *)
Ltac effect_cases H :=
  destruct H as
    [ st
    | fuel st newFood n Hover Hplace
    | st Hover
    | st d Hrun Hturn
    | st first rest Hrun Hsnake Hcrash
    | fuel st first rest newFood n Hrun Hsnake Hgrid Hoff Hhead Hplace
    | st first rest Hrun Hsnake Hgrid Hoff Hmiss
    | st Hfresh ].

(** ** The view (lines 195-259) *)

(** The cell drawn for [index] (lines 204-205): [index % GRID_SIZE] and
    [Math.floor(index / GRID_SIZE)]. *)
Definition cellOfIndex (index : nat) : Position :=
  {| x := Z.of_nat index mod GRID_SIZE;
     y := Z.of_nat index / GRID_SIZE |}.

(** The indices of [Array.from({ length: GRID_SIZE * GRID_SIZE })]. *)
Definition boardIndices : list nat :=
  seq 0 (Z.to_nat (GRID_SIZE * GRID_SIZE)).

(** [snake[0]?.x === x && snake[0]?.y === y] (line 206); false on an empty
    snake, where both sides of the optional chain are [undefined]. *)
Definition isSnakeHead (g : Game) (index : nat) : bool :=
  match snake g with
  | [] => false
  | first :: _ => samePosition first (cellOfIndex index)
  end.

(** [snake.slice(1).some(...)] (line 207). *)
Definition isSnakeBody (g : Game) (index : nat) : bool :=
  existsb (fun segment => samePosition segment (cellOfIndex index))
          (tl (snake g)).

(** [food.x === x && food.y === y] (line 208). *)
Definition isFood (g : Game) (index : nat) : bool :=
  samePosition (food g) (cellOfIndex index).

(** The class of a cell, the template string of line 213. *)
Definition className (g : Game) (index : nat) : string :=
  ("cell " ++ (if isSnakeHead g index then "snake-head" else "") ++ " "
     ++ (if isSnakeBody g index then "snake-body" else "") ++ " "
     ++ (if isFood g index then "food" else ""))%string.

(** The conditions of the three overlays (lines 219, 232, 242). *)
Definition showStartOverlay (g : Game) : bool := negb (gameStarted g).
Definition showGameOverOverlay (g : Game) : bool :=
  gameOver g && gameStarted g.
Definition showPausedOverlay (g : Game) : bool :=
  isPaused g && gameStarted g && negb (gameOver g).

(** ** Shapes of snakes and of runs *)

(** Two cells one step apart along one axis. *)
Definition adjacent (a b : Position) : Prop :=
  Z.abs (x a - x b) + Z.abs (y a - y b) = 1.

(** Every segment is one step from the next. *)
Fixpoint contiguous (s : list Position) : Prop :=
  match s with
  | a :: (b :: _) as rest => adjacent a b /\ contiguous rest
  | _ => True
  end.

(** The moves between game states that the component makes. *)
Definition allowedMove (a b : GameState) : bool :=
  match a, b with
  | NotStarted, NotStarted | NotStarted, Running
  | Running, Running | Running, Paused | Running, GameOver
  | Paused, Paused | Paused, Running
  | GameOver, GameOver | GameOver, Running => true
  | _, _ => false
  end.

(** A game well under way, used as an example: the snake has eaten twice
    and is heading right along the top row. *)
Definition topRowGame : Game :=
  {| snake := [ {| x := 7; y := 0 |}; {| x := 6; y := 0 |};
                {| x := 5; y := 0 |}; {| x := 5; y := 1 |};
                {| x := 5; y := 2 |} ];
     food := {| x := 15; y := 15 |};
     gameOver := false;
     score := 20;
     isPaused := false;
     gameStarted := true;
     directionRef := RIGHT;
     draws := 6%nat |}.

(** ** The interval behind the game loop (lines 29, 113-188)

    [gameLoopRef] holds the handle of the interval, a positive number, or
    [null]; [intervals] lists the handles the window has running.  React runs
    the cleanup an effect returned, if it returned one, before it runs the
    effect again and when the component unmounts. *)

Record Timers : Type := mkTimers {
  gameLoopRef : option positive;
  intervals : list positive
}.

Definition clearInterval (handle : positive) (t : Timers) : Timers :=
  {| gameLoopRef := gameLoopRef t;
     intervals := remove Pos.eq_dec handle (intervals t) |}.

(** [if (gameLoopRef.current) { clearInterval(gameLoopRef.current);
    gameLoopRef.current = null; }], the body of the cleanup (lines 183-186)
    and of the early exit (lines 115-118). *)
Definition stopLoop (t : Timers) : Timers :=
  match gameLoopRef t with
  | Some handle =>
      {| gameLoopRef := None;
         intervals := intervals (clearInterval handle t) |}
  | None => t
  end.

(** The effect (lines 113-188), given the handle [window.setInterval]
    answers; the boolean tells whether a cleanup is returned. *)
Definition gameLoopEffect (g : Game) (handle : positive) (t : Timers)
  : Timers * bool :=
  if negb (gameStarted g) || isPaused g || gameOver g
  then (stopLoop t, false)
  else ({| gameLoopRef := Some handle;
           intervals := handle :: intervals t |}, true).

(** One run of the effect after a render: the pending cleanup first. *)
Definition rerunEffect (tc : Timers * bool) (gh : Game * positive)
  : Timers * bool :=
  gameLoopEffect (fst gh) (snd gh)
                 (if snd tc then stopLoop (fst tc) else fst tc).

(** The effect over the renders of a mounted component, first to last. *)
Definition runEffects (renders : list (Game * positive)) : Timers * bool :=
  fold_left rerunEffect renders
            ({| gameLoopRef := None; intervals := [] |}, false).

Definition unmount (tc : Timers * bool) : Timers :=
  if snd tc then stopLoop (fst tc) else fst tc.


(** The property names an object literal inherits from [Object.prototype].
    Under these the lookup [keyMap[e.key]] of the source finds a function or
    an object rather than [undefined]; no keyboard sends them as a key, and
    the table [keyMap] above answers [None] for them.  Statements about
    unmapped keys in the Running state leave them out. *)
Definition objectPrototypeNames : list string :=
  ["constructor"; "hasOwnProperty"; "isPrototypeOf"; "propertyIsEnumerable";
   "toLocaleString"; "toString"; "valueOf"; "__proto__";
   "__defineGetter__"; "__defineSetter__"; "__lookupGetter__";
   "__lookupSetter__"].

(** Two more example states: [runningGame] after the tick that eats the
    food at (10, 9), and [runningGame] paused. *)
Definition fedGame : Game :=
  {| snake := {| x := 10; y := 9 |} :: INITIAL_SNAKE;
     food := {| x := 15; y := 15 |};
     gameOver := false;
     score := 10;
     isPaused := false;
     gameStarted := true;
     directionRef := UP;
     draws := 4%nat |}.

Definition pausedGame : Game := setIsPaused true runningGame.

(** [leftEdgeGame] after the tick into the wall, and the state the space
    key then leads to when the new food lands on (15, 15). *)
Definition crashedGame : Game := setGameOver true leftEdgeGame.

Definition restartedGame : Game :=
  setFood {| x := 15; y := 15 |} (setDraws 4%nat (startGame firstRender)).


(** ** Basic facts about positions, lists and the helpers *)

Lemma samePosition_eq (a b : Position) : samePosition a b = true <-> a = b.
Proof.
  unfold samePosition. rewrite andb_true_iff, !Z.eqb_eq.
  destruct a as [ax ay], b as [bx b_y]; simpl. split.
  - intros [-> ->]. reflexivity.
  - intros E. injection E as -> ->. split; reflexivity.
Qed.

Lemma samePosition_refl (a : Position) : samePosition a a = true.
Proof. apply samePosition_eq. reflexivity. Qed.

Lemma samePosition_neq (a b : Position) : samePosition a b = false <-> a <> b.
Proof. rewrite <- not_true_iff_false, samePosition_eq. reflexivity. Qed.

Lemma hitsSelf_In (head : Position) (prevSnake : list Position) :
  hitsSelf head prevSnake = true <-> In head prevSnake.
Proof.
  unfold hitsSelf. rewrite existsb_exists. split.
  - intros [segment [Hin Heq]]. apply samePosition_eq in Heq. subst. exact Hin.
  - intros Hin. exists head. split; [exact Hin | apply samePosition_refl].
Qed.

Lemma hitsSelf_not_In (head : Position) (prevSnake : list Position) :
  hitsSelf head prevSnake = false <-> ~ In head prevSnake.
Proof. rewrite <- not_true_iff_false, hitsSelf_In. reflexivity. Qed.

Lemma isValidFoodPosition_spec (pos : Position) (snakeBody : list Position) :
  isValidFoodPosition pos snakeBody = true <-> ~ In pos snakeBody.
Proof.
  unfold isValidFoodPosition. rewrite negb_true_iff.
  apply (hitsSelf_not_In pos snakeBody).
Qed.

Lemma hitsWall_inGrid (head : Position) :
  hitsWall head = false <-> inGrid head.
Proof.
  unfold hitsWall, inGrid, GRID_SIZE.
  rewrite !orb_false_iff, !Z.ltb_ge, !Z.geb_leb, !Z.leb_gt. lia.
Qed.

Lemma hitsWall_outside (head : Position) :
  hitsWall head = true <->
  (x head < 0 \/ GRID_SIZE <= x head \/ y head < 0 \/ GRID_SIZE <= y head).
Proof.
  unfold hitsWall, GRID_SIZE.
  rewrite !orb_true_iff, !Z.ltb_lt, !Z.geb_leb, !Z.leb_le. tauto.
Qed.

Lemma In_removelast {A : Type} (a : A) (l : list A) :
  In a (removelast l) -> In a l.
Proof.
  induction l as [|b l IH]; simpl; [tauto|].
  destruct l as [|c l]; [simpl; tauto|].
  intros [E | Hin]; [left; exact E | right; apply IH; exact Hin].
Qed.

Lemma NoDup_removelast {A : Type} (l : list A) :
  NoDup l -> NoDup (removelast l).
Proof.
  induction 1 as [|a l Hnotin Hnd IH]; simpl; [constructor|].
  destruct l as [|c l]; [constructor|].
  constructor; [|exact IH].
  intros Hin. apply Hnotin. apply In_removelast. exact Hin.
Qed.

Lemma Forall_removelast {A : Type} (P : A -> Prop) (l : list A) :
  Forall P l -> Forall P (removelast l).
Proof.
  intros H. rewrite Forall_forall in *. intros a Hin.
  apply H. apply In_removelast. exact Hin.
Qed.

Lemma length_removelast_cons {A : Type} (a : A) (l : list A) :
  List.length (removelast (a :: l)) = List.length l.
Proof.
  revert a. induction l as [|b l IH]; intros a; [reflexivity|].
  change (removelast (a :: b :: l)) with (a :: removelast (b :: l)).
  change (S (List.length (removelast (b :: l))) = S (List.length l)).
  f_equal. apply IH.
Qed.

Lemma removelast_cons_nonempty {A : Type} (a : A) (l : list A) :
  l <> [] -> removelast (a :: l) <> [].
Proof. destruct l; [congruence | simpl; discriminate]. Qed.

Lemma keyMap_not_space (key : string) (d : Direction) :
  keyMap key = Some d -> String.eqb key " " = false.
Proof.
  intros H. destruct (String.eqb key " ") eqn:E; [|reflexivity].
  apply String.eqb_eq in E. subst key. vm_compute in H. discriminate.
Qed.

Lemma Direction_eqb_eq (a b : Direction) : Direction_eqb a b = true <-> a = b.
Proof. destruct a, b; simpl; split; intros H; congruence. Qed.

(** ** Food placement *)

Lemma floor_scaled_range (q : Q) :
  (0 <= q)%Q -> (q < 1)%Q ->
  0 <= Qfloor (q * inject_Z GRID_SIZE) < GRID_SIZE.
Proof.
  intros Hlo Hhi. split.
  - change 0 with (Qfloor (inject_Z 0)). apply Qfloor_resp_le.
    change (inject_Z 0) with (0 * inject_Z GRID_SIZE)%Q.
    apply Qmult_le_compat_r; [exact Hlo | discriminate].
  - rewrite Zlt_Qlt.
    apply Qle_lt_trans with (q * inject_Z GRID_SIZE)%Q; [apply Qfloor_le|].
    setoid_replace (inject_Z GRID_SIZE) with (1 * inject_Z GRID_SIZE)%Q
      at 2 by ring.
    apply Qmult_lt_compat_r; [reflexivity | exact Hhi].
Qed.

Lemma generateFood_inGrid (n : nat) :
  unitSource -> inGrid (fst (generateFood n)).
Proof.
  intros Hu. unfold generateFood, inGrid. simpl.
  split; apply floor_scaled_range; apply Hu.
Qed.

Lemma candidate_shift (n k : nat) :
  candidate (S (S n)) k = candidate n (S k).
Proof. unfold candidate. f_equal. f_equal. lia. Qed.

Lemma candidate_zero (n : nat) : candidate n 0 = fst (generateFood n).
Proof. unfold candidate. f_equal. f_equal. lia. Qed.

(** Whatever the loop returns passed the validity test, and is either the
    position it was entered with or one of the later candidates. *)
Lemma redrawFood_sound (fuel : nat) :
  forall newFood n body p n',
    redrawFood fuel newFood n body = Some (p, n') ->
    isValidFoodPosition p body = true /\
    (p = newFood \/ exists m, p = fst (generateFood m)).
Proof.
  induction fuel as [|fuel IH]; intros newFood n body p n' H; simpl in H.
  - destruct (isValidFoodPosition newFood body) eqn:E; [|discriminate].
    injection H as <- <-. split; [exact E | left; reflexivity].
  - destruct (isValidFoodPosition newFood body) eqn:E.
    + injection H as <- <-. split; [exact E | left; reflexivity].
    + apply IH in H. destruct H as [Hv [-> | Hm]].
      * split; [exact Hv | right; exists n; reflexivity].
      * split; [exact Hv | right; exact Hm].
Qed.

Lemma placeFood_sound (fuel n : nat) (body : list Position) p n' :
  placeFood fuel n body = Some (p, n') ->
  isValidFoodPosition p body = true /\ exists m, p = fst (generateFood m).
Proof.
  unfold placeFood. simpl. intros H. apply redrawFood_sound in H.
  destruct H as [Hv [-> | Hm]].
  - split; [exact Hv | exists n; reflexivity].
  - split; [exact Hv | exact Hm].
Qed.

Lemma placeFood_free (fuel n : nat) (body : list Position) p n' :
  placeFood fuel n body = Some (p, n') -> ~ In p body.
Proof.
  intros H. apply placeFood_sound in H. destruct H as [Hv _].
  apply isValidFoodPosition_spec. exact Hv.
Qed.

Lemma placeFood_inGrid (fuel n : nat) (body : list Position) p n' :
  unitSource -> placeFood fuel n body = Some (p, n') -> inGrid p.
Proof.
  intros Hu H. apply placeFood_sound in H. destruct H as [_ [m ->]].
  apply generateFood_inGrid. exact Hu.
Qed.

(** More fuel never changes an answer already given. *)
Lemma redrawFood_more_fuel (fuel extra : nat) :
  forall newFood n body r,
    redrawFood fuel newFood n body = Some r ->
    redrawFood (fuel + extra) newFood n body = Some r.
Proof.
  induction fuel as [|fuel IH]; intros newFood n body r H.
  - simpl in H. destruct (isValidFoodPosition newFood body) eqn:E;
      [|discriminate].
    destruct extra; simpl; rewrite E; exact H.
  - simpl in H. simpl. destruct (isValidFoodPosition newFood body);
      [exact H | apply IH; exact H].
Qed.

(** The loop exits no later than at a valid candidate: if candidate [k] is
    valid, [S k] runs of the body are enough, and the answer is the position
    the loop was entered with or a candidate [j <= k], reached after
    [2 * S j] further calls of the source. *)
Lemma redrawFood_complete (k : nat) :
  forall newFood n body,
    isValidFoodPosition (candidate n k) body = true ->
    redrawFood (S k) newFood n body = Some (newFood, n) \/
    exists j, (j <= k)%nat /\
      redrawFood (S k) newFood n body
      = Some (candidate n j, (n + 2 * S j)%nat).
Proof.
  induction k as [|k IH]; intros newFood n body Hv.
  - simpl. destruct (isValidFoodPosition newFood body);
      [left; reflexivity|].
    right. exists 0%nat. split; [lia|].
    rewrite candidate_zero in *. simpl in Hv. rewrite Hv.
    do 2 f_equal. lia.
  - change (redrawFood (S (S k)) newFood n body)
      with (if isValidFoodPosition newFood body then Some (newFood, n)
            else redrawFood (S k) (fst (generateFood n)) (S (S n)) body).
    destruct (isValidFoodPosition newFood body); [left; reflexivity|].
    right. rewrite <- candidate_shift in Hv.
    destruct (IH (fst (generateFood n)) (S (S n)) body Hv)
      as [H | [j [Hj H]]].
    + exists 0%nat. split; [lia|]. rewrite H, candidate_zero.
      do 2 f_equal. lia.
    + exists (S j). split; [lia|]. rewrite H, candidate_shift.
      do 2 f_equal. lia.
Qed.

Lemma placeFood_complete (k n : nat) (body : list Position) :
  isValidFoodPosition (candidate n k) body = true ->
  exists j, (j <= k)%nat /\
    placeFood k n body = Some (candidate n j, (n + 2 * S j)%nat).
Proof.
  intros Hv. unfold placeFood.
  change (generateFood n) with (fst (generateFood n), S (S n)).
  cbv beta iota. destruct k as [|k].
  - exists 0%nat. split; [lia|]. rewrite candidate_zero in *.
    simpl. simpl in Hv. rewrite Hv. do 2 f_equal. lia.
  - rewrite <- candidate_shift in Hv.
    destruct (redrawFood_complete k (fst (generateFood n)) (S (S n)) body Hv)
      as [H | [j [Hj H]]].
    + exists 0%nat. split; [lia|]. rewrite H, candidate_zero.
      do 2 f_equal. lia.
    + exists (S j). split; [lia|]. rewrite H, candidate_shift.
      do 2 f_equal. lia.
Qed.

(** ** Case analysis of the handlers *)

Lemma INITIAL_SNAKE_ok : snakeOk INITIAL_SNAKE.
Proof.
  unfold snakeOk, INITIAL_SNAKE. split; [discriminate|]. split.
  - repeat constructor; simpl; intros H;
      repeat (destruct H as [H | H]; try discriminate H); exact H.
  - repeat constructor; unfold GRID_SIZE; simpl; lia.
Qed.

Lemma handleKeyPress_cases fuel key g g' :
  handleKeyPress fuel key g = Some g' ->
  g' = g \/
  (key = " " /\ gameOver g = true /\
   exists newFood n,
     placeFood fuel (draws g) INITIAL_SNAKE = Some (newFood, n) /\
     g' = setFood newFood (setDraws n (resetGame g))) \/
  (key = " " /\ gameOver g = false /\
   g' = setIsPaused (negb (isPaused g)) g) \/
  (exists d, gameState g = Running /\ keyMap key = Some d /\
             d <> oppositeDirections (directionRef g) /\
             g' = setDirectionRef d g).
Proof.
  unfold handleKeyPress, gameState. intros H.
  destruct (String.eqb key " ") eqn:Ek.
  - apply String.eqb_eq in Ek. rewrite andb_false_r in H.
    destruct (gameOver g) eqn:Eo.
    + destruct (placeFood fuel (draws g) INITIAL_SNAKE) as [[newFood n]|] eqn:Ep;
        [|discriminate].
      injection H as <-. right; left. repeat split; try assumption.
      exists newFood, n. split; reflexivity.
    + injection H as <-. right; right; left. repeat split; assumption.
  - rewrite andb_true_r in H. destruct (gameStarted g); simpl in H.
    2:{ injection H as <-. left; reflexivity. }
    destruct (isPaused g); simpl in H.
    { injection H as <-. left; reflexivity. }
    destruct (gameOver g); simpl in H.
    { injection H as <-. left; reflexivity. }
    destruct (keyMap key) as [d|]; [|injection H as <-; left; reflexivity].
    destruct (Direction_eqb d (oppositeDirections (directionRef g))) eqn:Ed;
      simpl in H; injection H as <-; [left; reflexivity|].
    right; right; right. exists d. repeat split.
    intros E. apply Direction_eqb_eq in E. congruence.
Qed.

Lemma tick_cases fuel g g' first rest :
  snake g = first :: rest ->
  tick fuel g = Some g' ->
  let head := moveHead (directionRef g) first in
  ((hitsWall head = true \/ hitsSelf head (snake g) = true) /\
   g' = setGameOver true g) \/
  (hitsWall head = false /\ hitsSelf head (snake g) = false /\
   samePosition head (food g) = true /\
   exists newFood n,
     placeFood fuel (draws g) (head :: snake g) = Some (newFood, n) /\
     g' = setSnake (head :: snake g)
            (setFood newFood (setScore (score g + 10) (setDraws n g)))) \/
  (hitsWall head = false /\ hitsSelf head (snake g) = false /\
   samePosition head (food g) = false /\
   g' = setSnake (removelast (head :: snake g)) g).
Proof.
  intros Hs H head. unfold tick in H. rewrite Hs in H. fold head in H.
  rewrite Hs.
  destruct (hitsWall head) eqn:Ew.
  { injection H as <-. left. split; [left; reflexivity | reflexivity]. }
  destruct (hitsSelf head (first :: rest)) eqn:Ec.
  { injection H as <-. left. split; [right; reflexivity | reflexivity]. }
  destruct (samePosition head (food g)) eqn:Ef.
  - destruct (placeFood fuel (draws g) (head :: first :: rest))
      as [[newFood n]|] eqn:Ep; [|discriminate].
    injection H as <-. right; left. repeat split.
    exists newFood, n. split; reflexivity.
  - injection H as <-. right; right. repeat split.
Qed.

(** ** The invariant is kept by every event *)

Lemma gameState_Running (g : Game) :
  gameState g = Running <->
  gameStarted g = true /\ isPaused g = false /\ gameOver g = false.
Proof.
  unfold gameState.
  destruct (gameStarted g), (gameOver g), (isPaused g); simpl;
    split; try discriminate; try tauto; intros [A [B C]]; discriminate.
Qed.

Lemma gameState_NotStarted (g : Game) :
  gameState g = NotStarted <-> gameStarted g = false.
Proof.
  unfold gameState.
  destruct (gameStarted g), (gameOver g), (isPaused g); simpl;
    split; try discriminate; tauto.
Qed.

Lemma gameLoop_Running fuel g :
  gameState g = Running -> gameLoop fuel g = tick fuel g.
Proof.
  intros H. apply gameState_Running in H. destruct H as [A [B C]].
  unfold gameLoop. rewrite A, B, C. reflexivity.
Qed.

Lemma invariant_mount fuel g :
  initFood fuel firstRender = Some g -> invariant g.
Proof.
  unfold initFood. simpl.
  destruct (placeFood fuel 0 INITIAL_SNAKE) as [[newFood n]|] eqn:Ep;
    [|discriminate].
  intros H. injection H as <-. unfold invariant.
  split; [exact INITIAL_SNAKE_ok|]. split; [|reflexivity].
  exact (placeFood_free fuel 0 INITIAL_SNAKE newFood n Ep).
Qed.

Lemma invariant_key fuel key g g' :
  invariant g -> handleKeyPress fuel key g = Some g' -> invariant g'.
Proof.
  intros Hinv H. apply handleKeyPress_cases in H.
  destruct H as [-> | [[_ [_ [newFood [n [Ep ->]]]]] | [[_ [Eo ->]] | H]]].
  - exact Hinv.
  - unfold invariant.
    split; [exact INITIAL_SNAKE_ok|]. split; [|discriminate].
    exact (placeFood_free fuel (draws g) INITIAL_SNAKE newFood n Ep).
  - destruct Hinv as [A [B C]]. unfold invariant.
    split; [exact A|]. split; [exact B|]. intros _. exact Eo.
  - destruct H as [d [_ [_ [_ ->]]]]. exact Hinv.
Qed.

Lemma invariant_tick fuel g g' :
  invariant g -> gameState g = Running -> tick fuel g = Some g' ->
  invariant g'.
Proof.
  intros [[Hne [Hnd Hgrid]] [Hfood Hfresh]] Hrun H.
  apply gameState_Running in Hrun. destruct Hrun as [Hst _].
  destruct (snake g) as [|first rest] eqn:Es; [congruence|].
  pose proof (tick_cases fuel g g' first rest Es H) as Hc. cbv zeta in Hc.
  rewrite Es in Hc.
  destruct Hc as [[_ ->] | [[Hw [Hc [Hf [newFood [n [Ep ->]]]]]] |
                           [Hw [Hc [Hf ->]]]]].
  - unfold invariant. cbn [snake food gameStarted gameOver setGameOver].
    rewrite Es.
    split; [split; [exact Hne | split; assumption]|].
    split; [exact Hfood|]. intros E; congruence.
  - apply hitsSelf_not_In in Hc. apply hitsWall_inGrid in Hw.
    unfold invariant. split; [|split].
    + split; [discriminate|]. split; constructor; assumption.
    + exact (placeFood_free fuel (draws g) _ newFood n Ep).
    + exact Hfresh.
  - apply hitsSelf_not_In in Hc. apply hitsWall_inGrid in Hw.
    apply samePosition_neq in Hf.
    unfold invariant. cbn [snake food gameStarted gameOver setSnake].
    split; [|split].
    + split; [apply removelast_cons_nonempty; discriminate|].
      split.
      * apply NoDup_removelast. constructor; assumption.
      * apply Forall_removelast. constructor; assumption.
    + intros Hin. apply In_removelast in Hin. destruct Hin as [E | Hin].
      * apply Hf. exact E.
      * apply Hfood. exact Hin.
    + exact Hfresh.
Qed.

Lemma invariant_step g g' : invariant g -> step g g' -> invariant g'.
Proof.
  intros Hinv Hstep. destruct Hstep as [fuel key g g' H | fuel g g' Hr H | g H].
  - eapply invariant_key; eassumption.
  - rewrite (gameLoop_Running fuel g Hr) in H.
    eapply invariant_tick; eassumption.
  - destruct Hinv as [A [B C]]. unfold invariant.
    split; [exact A|]. split; [exact B|]. discriminate.
Qed.

Lemma reachable_invariant g : reachable g -> invariant g.
Proof.
  induction 1 as [fuel g H | g g' _ IH Hstep].
  - eapply invariant_mount. exact H.
  - eapply invariant_step; eassumption.
Qed.

(** With a source that keeps to [0, 1) the food is always on the board. *)
Lemma reachable_food_inGrid g :
  unitSource -> reachable g -> inGrid (food g).
Proof.
  intros Hu. induction 1 as [fuel g H | g g' _ IH Hstep].
  - unfold initFood in H.
    destruct (placeFood fuel (draws firstRender) (snake firstRender))
      as [[newFood n]|] eqn:Ep; [|discriminate].
    injection H as <-. simpl. eapply placeFood_inGrid; eassumption.
  - destruct Hstep as [fuel key g g' H | fuel g g' Hr H | g H].
    + apply handleKeyPress_cases in H.
      destruct H as [-> | [[_ [_ [newFood [n [Ep ->]]]]] | [[_ [_ ->]] | H]]].
      * exact IH.
      * simpl. eapply placeFood_inGrid; eassumption.
      * exact IH.
      * destruct H as [d [_ [_ [_ ->]]]]. exact IH.
    + rewrite (gameLoop_Running fuel g Hr) in H.
      destruct (snake g) as [|first rest] eqn:Es.
      * unfold tick in H. rewrite Es in H. injection H as <-. exact IH.
      * pose proof (tick_cases fuel g g' first rest Es H) as Hc. cbv zeta in Hc.
        destruct Hc as [[_ ->] | [[_ [_ [_ [newFood [n [Ep ->]]]]]] |
                                 [_ [_ [_ ->]]]]].
        -- exact IH.
        -- simpl. eapply placeFood_inGrid; eassumption.
        -- exact IH.
    + exact IH.
Qed.

(** ** Collision handling *)

Lemma tick_collision fuel g first rest :
  snake g = first :: rest ->
  hitsWall (moveHead (directionRef g) first) = true \/
  In (moveHead (directionRef g) first) (snake g) ->
  tick fuel g = Some (setGameOver true g).
Proof.
  intros Es Hcol. unfold tick. rewrite Es.
  destruct (hitsWall (moveHead (directionRef g) first)) eqn:Ew;
    [reflexivity|].
  destruct Hcol as [Hw | Hin]; [discriminate|].
  rewrite Es in Hin. apply hitsSelf_In in Hin. rewrite Hin. reflexivity.
Qed.

(** C2. The self-collision test answers true exactly when the moved head is
    an element of the snake as it was before the move, tail included; so a
    head moved onto the cell of the current tail is a collision, and the tick
    that makes this move ends the game without moving the snake. *)
Theorem self_collision_checks_whole_body :
  (forall (head : Position) (prevSnake : list Position),
      hitsSelf head prevSnake = true <-> In head prevSnake) /\
  (forall (head d : Position) (prevSnake : list Position),
      prevSnake <> [] -> head = last prevSnake d ->
      hitsSelf head prevSnake = true) /\
  (forall fuel g first rest,
      snake g = first :: rest ->
      moveHead (directionRef g) first = last (snake g) first ->
      tick fuel g = Some (setGameOver true g)).
Proof.
  assert (Hlast : forall (l : list Position) d, l <> [] -> In (last l d) l).
  { intros l d Hne. destruct (exists_last Hne) as [front [tail ->]].
    rewrite last_last. apply in_or_app. right. left. reflexivity. }
  split; [exact hitsSelf_In|]. split.
  - intros head d prevSnake Hne ->. apply hitsSelf_In. apply Hlast. exact Hne.
  - intros fuel g first rest Es Htail.
    apply (tick_collision fuel g first rest Es). right.
    rewrite Htail. apply Hlast. rewrite Es. discriminate.
Qed.

(** C3. A Running tick whose moved head leaves the board or lands on a
    segment of the snake as it was before the move commits, whatever the
    fuel, a state that is GameOver and has the snake, the score and the food
    (and the count of random draws) of the state before the tick. *)
Theorem collision_tick_is_atomic :
  forall fuel g first rest,
    gameState g = Running ->
    snake g = first :: rest ->
    let head := moveHead (directionRef g) first in
    (x head < 0 \/ GRID_SIZE <= x head \/
     y head < 0 \/ GRID_SIZE <= y head \/ In head (snake g)) ->
    exists g',
      gameLoop fuel g = Some g' /\
      gameState g' = GameOver /\
      snake g' = snake g /\
      score g' = score g /\
      food g' = food g /\
      draws g' = draws g.
Proof.
  intros fuel g first rest Hrun Es head Hcol.
  exists (setGameOver true g).
  rewrite (gameLoop_Running fuel g Hrun).
  split.
  - apply (tick_collision fuel g first rest Es). fold head.
    destruct Hcol as [H | [H | [H | [H | H]]]];
      try (right; exact H); left; apply hitsWall_outside; tauto.
  - apply gameState_Running in Hrun. destruct Hrun as [A [B C]].
    unfold gameState. cbn [gameStarted gameOver isPaused setGameOver].
    rewrite A. repeat split.
Qed.

(** C4. A Running tick whose moved head stays on the board and off the
    snake: when the head is not on the food the tick commits, whatever the
    fuel, a snake exactly as long as before; when it is on the food every
    state the tick commits has a snake exactly one segment longer, and the
    tick does commit once the source draws a free cell. *)
Theorem tick_length_accounting :
  forall fuel g first rest,
    gameState g = Running ->
    snake g = first :: rest ->
    let head := moveHead (directionRef g) first in
    hitsWall head = false ->
    ~ In head (snake g) ->
    (head <> food g ->
     exists g', gameLoop fuel g = Some g' /\
                List.length (snake g') = List.length (snake g)) /\
    (head = food g ->
     (forall g', gameLoop fuel g = Some g' ->
                 List.length (snake g') = S (List.length (snake g))) /\
     (eventuallyFree (draws g) (head :: snake g) ->
      exists fuel' g', gameLoop fuel' g = Some g')).
Proof.
  intros fuel g first rest Hrun Es head Hw Hself.
  assert (Hc : hitsSelf head (first :: rest) = false)
    by (apply hitsSelf_not_In; rewrite <- Es; exact Hself).
  assert (Htick : forall f, gameLoop f g =
            if samePosition head (food g) then
              match placeFood f (draws g) (head :: first :: rest) with
              | Some (newFood, n) =>
                  Some (setSnake (head :: first :: rest)
                          (setFood newFood
                             (setScore (score g + 10) (setDraws n g))))
              | None => None
              end
            else Some (setSnake (removelast (head :: first :: rest)) g)).
  { intros f. rewrite (gameLoop_Running f g Hrun). unfold tick.
    rewrite Es. fold head. rewrite Hw, Hc. reflexivity. }
  split.
  - intros Hneq. apply samePosition_neq in Hneq.
    eexists. rewrite Htick, Hneq. split; [reflexivity|].
    cbn [snake setSnake]. rewrite Es. apply length_removelast_cons.
  - intros Heq. assert (Hf : samePosition head (food g) = true)
      by (apply samePosition_eq; exact Heq).
    split.
    + intros g' H. rewrite Htick, Hf in H.
      destruct (placeFood fuel (draws g) (head :: first :: rest))
        as [[newFood n]|]; [|discriminate].
      injection H as <-. cbn [snake setSnake]. rewrite Es. reflexivity.
    + intros [k Hk]. rewrite Es in Hk.
      destruct (placeFood_complete k (draws g) _ Hk) as [j [_ Hp]].
      exists k. eexists. rewrite Htick, Hf, Hp. reflexivity.
Qed.

(** ** Eating *)

(** C5. In a reachable Running state whose moved head is on the food, every
    state the tick commits has the score raised by exactly 10, the snake
    grown by the new head with no segment dropped, and the food moved to a
    cell of the board that no segment of the grown snake occupies; the tick
    does commit once the source draws such a cell. *)
Theorem eating_tick_commit :
  forall fuel g first rest,
    unitSource ->
    reachable g ->
    gameState g = Running ->
    snake g = first :: rest ->
    moveHead (directionRef g) first = food g ->
    (forall g',
        gameLoop fuel g = Some g' ->
        score g' = score g + 10 /\
        snake g' = moveHead (directionRef g) first :: snake g /\
        ~ In (food g') (snake g') /\
        food g' <> food g /\
        inGrid (food g') /\
        gameState g' = Running) /\
    (eventuallyFree (draws g) (food g :: snake g) ->
     exists fuel' g', gameLoop fuel' g = Some g').
Proof.
  intros fuel g first rest Hu Hreach Hrun Es Hhead.
  pose proof (reachable_food_inGrid g Hu Hreach) as Hgrid.
  destruct (reachable_invariant g Hreach) as [_ [Hfood _]].
  assert (Hw : hitsWall (moveHead (directionRef g) first) = false)
    by (apply hitsWall_inGrid; rewrite Hhead; exact Hgrid).
  assert (Hc : hitsSelf (moveHead (directionRef g) first) (first :: rest)
               = false)
    by (apply hitsSelf_not_In; rewrite Hhead, <- Es; exact Hfood).
  assert (Hf : samePosition (moveHead (directionRef g) first) (food g) = true)
    by (apply samePosition_eq; exact Hhead).
  assert (Htick : forall f, gameLoop f g =
            match placeFood f (draws g) (food g :: snake g) with
            | Some (newFood, n) =>
                Some (setSnake (food g :: snake g)
                        (setFood newFood
                           (setScore (score g + 10) (setDraws n g))))
            | None => None
            end).
  { intros f. rewrite (gameLoop_Running f g Hrun). unfold tick.
    rewrite Es, Hw, Hc, Hf, Hhead. reflexivity. }
  split.
  - intros g' H. rewrite Htick in H.
    destruct (placeFood fuel (draws g) (food g :: snake g))
      as [[newFood n]|] eqn:Ep; [|discriminate].
    injection H as <-.
    cbn [score snake food setSnake setFood setScore setDraws].
    split; [reflexivity|]. split; [rewrite Hhead; reflexivity|].
    pose proof (placeFood_free fuel _ _ _ _ Ep) as Hfree.
    split; [exact Hfree|].
    split; [intros E; apply Hfree; left; symmetry; exact E|].
    split; [exact (placeFood_inGrid fuel _ _ _ _ Hu Ep)|].
    exact Hrun.
  - intros [k Hk].
    destruct (placeFood_complete k (draws g) _ Hk) as [j [_ Hp]].
    exists k. eexists. rewrite Htick, Hp. reflexivity.
Qed.

(** C6. Whenever food placement returns a position for an occupied list
    that leaves a cell of the board free, the position is not in the list and
    both its coordinates are in [0, GRID_SIZE). *)
Theorem placed_food_is_free_and_on_board :
  forall fuel n (occupied : list Position) p n',
    unitSource ->
    hasFreeCell occupied ->
    placeFood fuel n occupied = Some (p, n') ->
    ~ In p occupied /\
    0 <= x p < GRID_SIZE /\ 0 <= y p < GRID_SIZE.
Proof.
  intros fuel n occupied p n' Hu _ H. split.
  - exact (placeFood_free fuel n occupied p n' H).
  - exact (placeFood_inGrid fuel n occupied p n' Hu H).
Qed.

(** C7, as amended.  If from the current call on the source eventually
    draws a position outside the occupied list, then the loop exits: some
    finite fuel yields a position, that position is a candidate [j] outside
    the list, it is reached after [2 * S j] calls of the source, and no
    larger fuel changes the answer. *)
Theorem placement_terminates_on_eventual_free_draw :
  forall n (occupied : list Position),
    eventuallyFree n occupied ->
    exists fuel j p n',
      placeFood fuel n occupied = Some (p, n') /\
      p = candidate n j /\
      n' = (n + 2 * S j)%nat /\
      ~ In p occupied /\
      forall extra, placeFood (fuel + extra) n occupied = Some (p, n').
Proof.
  intros n occupied [k Hk].
  destruct (placeFood_complete k n occupied Hk) as [j [_ Hp]].
  exists k, j, (candidate n j), (n + 2 * S j)%nat.
  split; [exact Hp|]. split; [reflexivity|]. split; [reflexivity|]. split.
  - exact (placeFood_free k n occupied _ _ Hp).
  - intros extra. unfold placeFood in *.
    change (generateFood n) with (fst (generateFood n), S (S n)) in *.
    cbv beta iota in *. apply redrawFood_more_fuel. exact Hp.
Qed.

(** ** Key handling *)

Lemma handleKeyPress_movement fuel key d g :
  gameState g = Running ->
  keyMap key = Some d ->
  handleKeyPress fuel key g =
  Some (if Direction_eqb d (oppositeDirections (directionRef g))
        then g else setDirectionRef d g).
Proof.
  intros Hrun Hk. apply gameState_Running in Hrun. destruct Hrun as [A [B C]].
  unfold handleKeyPress.
  rewrite (keyMap_not_space key d Hk), A, B, C, Hk. simpl.
  destruct (Direction_eqb d (oppositeDirections (directionRef g)));
    reflexivity.
Qed.

Lemma movementKeys_mapped (key : string) :
  In key movementKeys <-> exists d, keyMap key = Some d.
Proof.
  split.
  - unfold movementKeys. simpl.
    intros H. repeat (destruct H as [<- | H]; [eexists; reflexivity|]).
    contradiction.
  - intros [d H]. unfold keyMap in H. unfold movementKeys.
    repeat match type of H with
           | (if String.eqb key ?k then _ else _) = _ =>
               let E := fresh "E" in
               destruct (String.eqb key k) eqn:E;
               [apply String.eqb_eq in E; subst key; simpl; tauto | clear E]
           end.
    discriminate.
Qed.

(** What a Running tick commits, by where the moved head lands. *)
Lemma gameLoop_outcomes fuel g first rest :
  gameState g = Running ->
  snake g = first :: rest ->
  let head := moveHead (directionRef g) first in
  (hitsWall head = true \/ In head (snake g) ->
   gameLoop fuel g = Some (setGameOver true g)) /\
  (hitsWall head = false -> ~ In head (snake g) -> head <> food g ->
   gameLoop fuel g = Some (setSnake (removelast (head :: snake g)) g)) /\
  (hitsWall head = false -> ~ In head (snake g) -> head = food g ->
   forall g', gameLoop fuel g = Some g' -> snake g' = head :: snake g).
Proof.
  intros Hrun Es head. rewrite (gameLoop_Running fuel g Hrun).
  split; [exact (tick_collision fuel g first rest Es)|].
  split.
  - intros Hw Hoff Hmiss. unfold tick. rewrite Es. fold head. rewrite Hw.
    rewrite Es in Hoff. apply hitsSelf_not_In in Hoff. rewrite Hoff.
    apply samePosition_neq in Hmiss. rewrite Hmiss. reflexivity.
  - intros Hw Hoff Hmeal g' H.
    pose proof (tick_cases fuel g g' first rest Es H) as Hc. cbv zeta in Hc.
    fold head in Hc.
    destruct Hc as [[[Hw' | Hc] _] | [[_ [_ [_ [newFood [n [_ ->]]]]]] |
                                      [_ [_ [Hf _]]]]].
    + congruence.
    + apply hitsSelf_In in Hc. contradiction.
    + reflexivity.
    + apply samePosition_neq in Hf. contradiction.
Qed.

(** C8. In the Running state each of the eight movement keys is handled
    whatever the fuel.  A key for DOWN while UP is pending, for UP while DOWN
    is pending, for RIGHT while LEFT is pending or for LEFT while RIGHT is
    pending leaves the state, and with it the pending direction, as it is;
    every other movement key writes its direction over the pending one and
    nothing else.  The next tick applies the direction then pending: it moves
    the head one cell up (y - 1), down (y + 1), left (x - 1) or right
    (x + 1) accordingly, ends the game if that cell is off the board or on
    the snake, and otherwise commits a snake headed by that cell. *)
Theorem direction_filter :
  forall fuel key d g,
    gameState g = Running ->
    In (key, d)
       [("ArrowUp", UP); ("ArrowDown", DOWN); ("ArrowLeft", LEFT);
        ("ArrowRight", RIGHT); ("w", UP); ("s", DOWN); ("a", LEFT);
        ("d", RIGHT)] ->
    let g' := match directionRef g, d with
              | UP, DOWN | DOWN, UP | LEFT, RIGHT | RIGHT, LEFT => g
              | _, _ => setDirectionRef d g
              end in
    handleKeyPress fuel key g = Some g' /\
    directionRef g' = match directionRef g, d with
                      | UP, DOWN | DOWN, UP | LEFT, RIGHT | RIGHT, LEFT =>
                          directionRef g
                      | _, _ => d
                      end /\
    forall fuel' first rest,
      snake g = first :: rest ->
      let head := match directionRef g' with
                  | UP => {| x := x first; y := y first - 1 |}
                  | DOWN => {| x := x first; y := y first + 1 |}
                  | LEFT => {| x := x first - 1; y := y first |}
                  | RIGHT => {| x := x first + 1; y := y first |}
                  end in
      (hitsWall head = true \/ In head (snake g) ->
       gameLoop fuel' g' = Some (setGameOver true g')) /\
      (hitsWall head = false -> ~ In head (snake g) -> head <> food g ->
       gameLoop fuel' g'
       = Some (setSnake (removelast (head :: snake g)) g')) /\
      (hitsWall head = false -> ~ In head (snake g) -> head = food g ->
       forall g'', gameLoop fuel' g' = Some g'' ->
                   snake g'' = head :: snake g).
Proof.
  intros fuel key d g Hrun Hkey g'.
  assert (Hk : keyMap key = Some d).
  { simpl in Hkey.
    repeat (destruct Hkey as [E | Hkey];
            [injection E as <- <-; reflexivity|]).
    contradiction. }
  assert (Hg' : (g' = g \/ g' = setDirectionRef d g) /\
                handleKeyPress fuel key g = Some g').
  { rewrite (handleKeyPress_movement fuel key d g Hrun Hk). unfold g'.
    destruct (directionRef g), d; simpl; split;
      try reflexivity; (left; reflexivity) || (right; reflexivity). }
  destruct Hg' as [Hshape Hhandled].
  split; [exact Hhandled|]. split.
  { unfold g'. destruct (directionRef g) eqn:E, d; simpl;
      try reflexivity; exact E. }
  intros fuel' first rest Es head.
  assert (Hrun' : gameState g' = Running)
    by (destruct Hshape as [-> | ->]; exact Hrun).
  assert (Es' : snake g' = first :: rest)
    by (destruct Hshape as [-> | ->]; exact Es).
  assert (Hsnake : snake g' = snake g)
    by (destruct Hshape as [-> | ->]; reflexivity).
  assert (Hfood : food g' = food g)
    by (destruct Hshape as [-> | ->]; reflexivity).
  pose proof (gameLoop_outcomes fuel' g' first rest Hrun' Es') as H.
  cbv zeta in H. change (moveHead (directionRef g') first) with head in H.
  rewrite Hsnake, Hfood in H. exact H.
Qed.

(** C9. In every state the component can commit the snake is non-empty, has
    no two equal segments, and has every segment on the board. *)
Theorem reachable_snake_invariant :
  forall g,
    reachable g ->
    snake g <> [] /\
    NoDup (snake g) /\
    Forall (fun p => 0 <= x p < GRID_SIZE /\ 0 <= y p < GRID_SIZE) (snake g).
Proof.
  intros g H. destruct (reachable_invariant g H) as [Hs _]. exact Hs.
Qed.

(** C10. In the Running state each of the eight movement keys is handled
    whatever the fuel, and the state it commits differs from the one before
    at most in the pending direction: snake, food, score, the three flags,
    hence the game state, and the count of random draws are the same. *)
Theorem movement_key_frame :
  forall fuel key g,
    gameState g = Running ->
    In key movementKeys ->
    exists g',
      handleKeyPress fuel key g = Some g' /\
      snake g' = snake g /\
      food g' = food g /\
      score g' = score g /\
      gameOver g' = gameOver g /\
      isPaused g' = isPaused g /\
      gameStarted g' = gameStarted g /\
      gameState g' = gameState g /\
      draws g' = draws g.
Proof.
  intros fuel key g Hrun Hkey.
  apply movementKeys_mapped in Hkey. destruct Hkey as [d Hk].
  rewrite (handleKeyPress_movement fuel key d g Hrun Hk).
  eexists. split; [reflexivity|].
  destruct (Direction_eqb d (oppositeDirections (directionRef g)));
    repeat split.
Qed.

(** C1, as amended.  In a reachable NotStarted state the space key neither
    starts nor restarts the game: it is handled whatever the fuel, it flips
    [isPaused] and writes nothing else, so the state stays NotStarted, and
    [startGame] leads to the same state as if the key had not been pressed.
    Every other key is ignored outright. *)
Theorem space_before_start_only_flips_pause :
  forall fuel g,
    reachable g ->
    gameState g = NotStarted ->
    (exists g',
        handleKeyPress fuel " " g = Some g' /\
        isPaused g' = negb (isPaused g) /\
        snake g' = snake g /\
        food g' = food g /\
        score g' = score g /\
        directionRef g' = directionRef g /\
        gameOver g' = gameOver g /\
        gameStarted g' = gameStarted g /\
        draws g' = draws g /\
        gameState g' = NotStarted /\
        startGame g' = startGame g) /\
    (forall key, key <> " " -> handleKeyPress fuel key g = Some g).
Proof.
  intros fuel g Hreach Hns.
  destruct (reachable_invariant g Hreach) as [_ [_ Hfresh]].
  apply gameState_NotStarted in Hns. specialize (Hfresh Hns).
  split.
  - exists (setIsPaused (negb (isPaused g)) g). split.
    + unfold handleKeyPress. rewrite Hns, Hfresh. reflexivity.
    + repeat split.
      unfold gameState. cbn [gameStarted setIsPaused]. rewrite Hns.
      reflexivity.
  - intros key Hkey. unfold handleKeyPress. rewrite Hns.
    destruct (String.eqb key " ") eqn:E; [|reflexivity].
    apply String.eqb_eq in E. contradiction.
Qed.

(** ** Every event has one of eight effects *)

Lemma step_effect g g' : step g g' -> effect g g'.
Proof.
  intros Hstep. destruct Hstep as [fuel key g g' H | fuel g g' Hr H | g H].
  - apply handleKeyPress_cases in H.
    destruct H as [-> | [[_ [Eo [newFood [n [Ep ->]]]]] | [[_ [Eo ->]] | H]]].
    + apply effect_none.
    + eapply effect_restart; eassumption.
    + apply effect_toggle. exact Eo.
    + destruct H as [d [Hr [_ [Hd ->]]]]. apply effect_turn; assumption.
  - rewrite (gameLoop_Running fuel g Hr) in H.
    destruct (snake g) as [|first rest] eqn:Es.
    + unfold tick in H. rewrite Es in H. injection H as <-. apply effect_none.
    + pose proof (tick_cases fuel g g' first rest Es H) as Hc.
      cbv zeta in Hc.
      destruct Hc as [[Hcol ->] | [[Hw [Hc [Hf [newFood [n [Ep ->]]]]]] |
                                  [Hw [Hc [Hf ->]]]]].
      * apply (effect_crash g first rest Hr Es).
        destruct Hcol as [Hw | Hc]; [left; exact Hw|].
        right. apply hitsSelf_In. exact Hc.
      * apply samePosition_eq in Hf. apply hitsWall_inGrid in Hw.
        apply hitsSelf_not_In in Hc. rewrite Hf in *.
        apply (effect_eat fuel g first rest newFood n); assumption.
      * apply samePosition_neq in Hf. apply hitsWall_inGrid in Hw.
        apply hitsSelf_not_In in Hc.
        apply (effect_shift g first rest); assumption.
  - apply effect_start. exact H.
Qed.

(** An invariant of the states the component commits is a property of the
    mounted states that every effect keeps. *)
Lemma reachable_by_effect (P : Game -> Prop) :
  (forall fuel g, initFood fuel firstRender = Some g -> P g) ->
  (forall g g', reachable g -> P g -> effect g g' -> P g') ->
  forall g, reachable g -> P g.
Proof.
  intros Hmount Hkeep g. induction 1 as [fuel g H | g g' Hr IH Hstep].
  - exact (Hmount fuel g H).
  - exact (Hkeep g g' Hr IH (step_effect g g' Hstep)).
Qed.

Lemma initFood_firstRender fuel g :
  initFood fuel firstRender = Some g ->
  exists newFood n,
    placeFood fuel 0 INITIAL_SNAKE = Some (newFood, n) /\
    g = setFood newFood (setDraws n firstRender).
Proof.
  unfold initFood.
  change (draws firstRender) with 0%nat.
  change (snake firstRender) with INITIAL_SNAKE.
  destruct (placeFood fuel 0 INITIAL_SNAKE) as [[newFood n]|];
    [|discriminate].
  intros H. injection H as <-. exists newFood, n. split; reflexivity.
Qed.

(** ** Directions and single moves *)

Lemma moveHead_back (d : Direction) (p : Position) :
  moveHead (oppositeDirections d) (moveHead d p) = p.
Proof.
  destruct p as [px py], d; unfold moveHead, oppositeDirections; simpl;
    f_equal; lia.
Qed.

Lemma moveHead_adjacent (d : Direction) (p : Position) :
  adjacent (moveHead d p) p.
Proof. unfold adjacent. destruct d; simpl; lia. Qed.

Lemma moveHead_direction (d e : Direction) (p : Position) :
  moveHead d p = moveHead e p -> d = e.
Proof.
  destruct d, e; unfold moveHead; intros H; try reflexivity;
    injection H; intros; lia.
Qed.

(** X1. The table of opposite directions is an involution without a fixed
    point, and it is the inverse on the board: one step along the opposite
    of a direction undoes one step along it. *)
Theorem opposite_undoes_move :
  forall (d : Direction) (p : Position),
    oppositeDirections (oppositeDirections d) = d /\
    oppositeDirections d <> d /\
    moveHead (oppositeDirections d) (moveHead d p) = p /\
    moveHead d (moveHead (oppositeDirections d) p) = p.
Proof.
  intros d p. split; [destruct d; reflexivity|].
  split; [destruct d; discriminate|].
  split; [apply moveHead_back|].
  destruct p as [px py], d; unfold moveHead, oppositeDirections; simpl;
    f_equal; lia.
Qed.

(** X2. From a cell of the board a move hits the wall exactly when the cell
    is on the edge the move heads for: up from row 0, down from the last
    row, left from column 0, right from the last column. *)
Theorem wall_hit_only_from_edge :
  forall (d : Direction) (p : Position),
    inGrid p ->
    (hitsWall (moveHead d p) = true <->
     (d = UP /\ y p = 0) \/ (d = DOWN /\ y p = GRID_SIZE - 1) \/
     (d = LEFT /\ x p = 0) \/ (d = RIGHT /\ x p = GRID_SIZE - 1)).
Proof.
  intros d p [Hx Hy]. rewrite hitsWall_outside. unfold GRID_SIZE in *.
  destruct d; simpl; split; intros H;
    repeat match goal with
           | K : _ \/ _ |- _ => destruct K
           | K : _ /\ _ |- _ => destruct K
           end; try discriminate; try lia.
  - left. split; [reflexivity | lia].
  - right; left. split; [reflexivity | lia].
  - right; right; left. split; [reflexivity | lia].
  - right; right; right. split; [reflexivity | lia].
Qed.

(** ** Invariants of the committed states *)

Lemma contiguous_removelast (s : list Position) :
  contiguous s -> contiguous (removelast s).
Proof.
  induction s as [|a s IH]; [exact (fun H => H)|].
  destruct s as [|b s]; [exact (fun H => H)|].
  intros [Hab Hrest]. specialize (IH Hrest).
  change (removelast (a :: b :: s)) with (a :: removelast (b :: s)).
  destruct s as [|c s]; [exact I|].
  change (removelast (b :: c :: s)) with (b :: removelast (c :: s)) in *.
  split; assumption.
Qed.

Lemma INITIAL_SNAKE_contiguous : contiguous INITIAL_SNAKE.
Proof. unfold INITIAL_SNAKE, adjacent; simpl. repeat split. Qed.

Lemma reachable_contiguous g : reachable g -> contiguous (snake g).
Proof.
  apply (reachable_by_effect (fun g => contiguous (snake g))).
  - intros fuel g0 H. apply initFood_firstRender in H.
    destruct H as [newFood [n [_ ->]]]. exact INITIAL_SNAKE_contiguous.
  - intros g0 g' _ IH Heff. effect_cases Heff; try exact IH.
    + exact INITIAL_SNAKE_contiguous.
    + cbn [snake setSnake]. rewrite Hsnake in *. split; [|exact IH].
      rewrite <- Hhead. apply moveHead_adjacent.
    + cbn [snake setSnake]. apply contiguous_removelast.
      rewrite Hsnake in *. split; [apply moveHead_adjacent | exact IH].
Qed.

Lemma reachable_length g : reachable g -> (3 <= List.length (snake g))%nat.
Proof.
  apply (reachable_by_effect (fun g => (3 <= List.length (snake g))%nat)).
  - intros fuel g0 H. apply initFood_firstRender in H.
    destruct H as [newFood [n [_ ->]]]. apply le_n.
  - intros g0 g' _ IH Heff. effect_cases Heff; try exact IH.
    + apply le_n.
    + cbn [snake setSnake]. simpl. lia.
    + cbn [snake setSnake]. rewrite length_removelast_cons. exact IH.
Qed.

Lemma reachable_pristine g :
  reachable g -> gameStarted g = false ->
  snake g = INITIAL_SNAKE /\ score g = 0 /\ directionRef g = INITIAL_DIRECTION.
Proof.
  apply (reachable_by_effect
           (fun g => gameStarted g = false ->
                     snake g = INITIAL_SNAKE /\ score g = 0 /\
                     directionRef g = INITIAL_DIRECTION)).
  - intros fuel g0 H. apply initFood_firstRender in H.
    destruct H as [newFood [n [_ ->]]]. intros _. repeat split.
  - intros g0 g' _ IH Heff.
    effect_cases Heff; try exact IH; try discriminate;
      apply gameState_Running in Hrun; destruct Hrun as [Hs _];
      cbn [gameStarted setDirectionRef setGameOver setSnake setFood setScore
           setDraws]; intros E; congruence.
Qed.

(** X3. In every state the component commits, each segment of the snake is
    exactly one step, along one axis, from the next: the snake is an unbroken
    path on the board. *)
Theorem reachable_snake_is_path :
  forall g, reachable g -> contiguous (snake g).
Proof. exact reachable_contiguous. Qed.

Lemma reachable_score g :
  reachable g -> score g = 10 * (Z.of_nat (List.length (snake g)) - 3).
Proof.
  apply (reachable_by_effect
           (fun g => score g = 10 * (Z.of_nat (List.length (snake g)) - 3))).
  - intros fuel g0 H. apply initFood_firstRender in H.
    destruct H as [newFood [n [_ ->]]]. reflexivity.
  - intros g0 g' _ IH Heff. effect_cases Heff; try exact IH.
    + reflexivity.
    + cbn [snake score setSnake setFood setScore setDraws].
      rewrite IH. simpl List.length. lia.
    + cbn [snake score setSnake]. rewrite length_removelast_cons. exact IH.
Qed.

(** X4. In every state the component commits the snake has at least its
    three initial segments and the score is ten times the number of segments
    grown since: [score = 10 * (length - 3)].  In particular the score is
    never negative and always a multiple of 10. *)
Theorem reachable_score_counts_growth :
  forall g,
    reachable g ->
    (3 <= List.length (snake g))%nat /\
    score g = 10 * (Z.of_nat (List.length (snake g)) - 3).
Proof.
  intros g Hr. split; [exact (reachable_length g Hr)|].
  exact (reachable_score g Hr).
Qed.

(** X5. Before the start button is clicked nothing but [isPaused] and the
    food ever differs from the first render: the snake is the initial snake,
    the score is 0, the pending direction is up and the game is not over; and
    the click leads to the Running state with that snake. *)
Theorem start_begins_from_initial_layout :
  forall g,
    reachable g ->
    gameState g = NotStarted ->
    snake g = INITIAL_SNAKE /\
    score g = 0 /\
    directionRef g = INITIAL_DIRECTION /\
    gameOver g = false /\
    gameState (startGame g) = Running /\
    snake (startGame g) = INITIAL_SNAKE /\
    food (startGame g) = food g.
Proof.
  intros g Hr Hns. apply gameState_NotStarted in Hns.
  destruct (reachable_pristine g Hr Hns) as [A [B C]].
  destruct (reachable_invariant g Hr) as [_ [_ D]]. specialize (D Hns).
  repeat split; try assumption.
  unfold gameState, startGame. cbn [gameStarted gameOver isPaused setIsPaused
                                     setGameStarted].
  rewrite D. reflexivity.
Qed.

(** X6. From a state the component commits, whatever the event, the game
    state moves only along the arrows of the state machine: NotStarted to
    Running; Running to Paused or GameOver; Paused to Running; GameOver to
    Running; or it stays where it is.  In particular NotStarted is never
    entered again. *)
Theorem game_state_moves :
  forall g g',
    reachable g ->
    step g g' ->
    allowedMove (gameState g) (gameState g') = true /\
    (gameState g <> NotStarted -> gameState g' <> NotStarted).
Proof.
  intros g g' Hreach Hstep. apply step_effect in Hstep.
  destruct (reachable_invariant g Hreach) as [_ [_ Hnew]]. clear Hreach.
  effect_cases Hstep;
    try (apply gameState_Running in Hrun; destruct Hrun as [Hs [Hp Ho]]);
    destruct st as [s f go sc ip gs dir dr];
    unfold gameState, startGame, resetGame in *; cbn in *; subst;
    try specialize (Hnew eq_refl); subst;
    repeat match goal with b : bool |- _ => destruct b end;
    cbn; split; try reflexivity; try discriminate;
    try (intros H; try (exfalso; apply H; reflexivity); discriminate);
    try (intros _; discriminate);
    try (specialize (Hnew eq_refl); discriminate).
Qed.

(** ** More on key handling *)

Lemma gameState_Paused (g : Game) :
  gameState g = Paused <->
  gameStarted g = true /\ isPaused g = true /\ gameOver g = false.
Proof.
  unfold gameState.
  destruct (gameStarted g), (gameOver g), (isPaused g); simpl;
    split; try discriminate; try tauto; intros [A [B C]]; discriminate.
Qed.

Lemma gameState_GameOver (g : Game) :
  gameState g = GameOver <-> gameStarted g = true /\ gameOver g = true.
Proof.
  unfold gameState.
  destruct (gameStarted g), (gameOver g), (isPaused g); simpl;
    split; try discriminate; try tauto; intros [A B]; discriminate.
Qed.

(** X7. Pausing loses nothing: in the Running state the space key leads to
    the Paused state with the same snake, food, score and pending direction,
    and a second space key leads back to exactly the state before the first. *)
Theorem pause_then_resume_restores :
  forall fuel g,
    gameState g = Running ->
    exists p,
      handleKeyPress fuel " " g = Some p /\
      gameState p = Paused /\
      snake p = snake g /\
      food p = food g /\
      score p = score g /\
      directionRef p = directionRef g /\
      handleKeyPress fuel " " p = Some g.
Proof.
  intros fuel g Hrun. apply gameState_Running in Hrun.
  destruct Hrun as [Hs [Hp Ho]].
  exists (setIsPaused true g).
  destruct g as [s f go sc ip gs dir dr]. cbn in Hs, Hp, Ho. subst.
  repeat split.
Qed.

(** X8. While the game is Paused no event changes the snake, the food, the
    score or the pending direction: an event either changes nothing at all
    or is the space key that resumes.  Movement keys pressed during a pause
    are not queued. *)
Theorem paused_state_is_frozen :
  forall g g',
    gameState g = Paused ->
    step g g' ->
    g' = g \/ (g' = setIsPaused false g /\ gameState g' = Running).
Proof.
  intros g g' Hp Hstep. apply step_effect in Hstep.
  apply gameState_Paused in Hp. destruct Hp as [Hs [Hp Ho]].
  effect_cases Hstep;
    try (apply gameState_Running in Hrun; destruct Hrun as [_ [Hp' _]]);
    try congruence.
  - left; reflexivity.
  - right. rewrite Hp. split; [reflexivity|].
    apply gameState_Running. repeat split; assumption.
Qed.

(** X9. Once the game is over only a restart changes anything: an event
    either leaves the state as it is, frozen snake and final score included,
    or is the space key, which leads to the Running state with the initial
    snake, score 0, direction up and a food off the initial snake. *)
Theorem game_over_left_only_by_restart :
  forall g g',
    gameState g = GameOver ->
    step g g' ->
    g' = g \/
    (gameState g' = Running /\
     snake g' = INITIAL_SNAKE /\
     score g' = 0 /\
     directionRef g' = INITIAL_DIRECTION /\
     ~ In (food g') INITIAL_SNAKE).
Proof.
  intros g g' Hg Hstep. apply step_effect in Hstep.
  apply gameState_GameOver in Hg. destruct Hg as [Hs Ho].
  effect_cases Hstep;
    try (apply gameState_Running in Hrun; destruct Hrun as [_ [_ Ho']]);
    try congruence.
  - left; reflexivity.
  - right. repeat split.
    exact (placeFood_free fuel (draws st) INITIAL_SNAKE newFood n Hplace).
Qed.

(** X10. The restart is a fresh start: the state the space key commits
    after a game over is the first render with the start button clicked,
    apart from the food, which is newly placed off the initial snake, and the
    count of random draws; and the key does commit once the source draws a
    cell off the initial snake. *)
Theorem restart_is_fresh_start :
  forall fuel g,
    gameState g = GameOver ->
    (forall g',
        handleKeyPress fuel " " g = Some g' ->
        g' = setFood (food g') (setDraws (draws g') (startGame firstRender)) /\
        ~ In (food g') INITIAL_SNAKE /\
        (draws g < draws g')%nat) /\
    (eventuallyFree (draws g) INITIAL_SNAKE ->
     exists fuel' g', handleKeyPress fuel' " " g = Some g').
Proof.
  intros fuel g Hg. apply gameState_GameOver in Hg. destruct Hg as [Hs Ho].
  assert (Hkey : forall f, handleKeyPress f " " g =
            match placeFood f (draws g) INITIAL_SNAKE with
            | Some (newFood, n) =>
                Some (setFood newFood (setDraws n (resetGame g)))
            | None => None
            end).
  { intros f. unfold handleKeyPress. rewrite Hs, Ho. reflexivity. }
  split.
  - intros g' H. rewrite Hkey in H.
    destruct (placeFood fuel (draws g) INITIAL_SNAKE) as [[newFood n]|] eqn:Ep;
      [|discriminate].
    injection H as <-. split; [reflexivity|]. split.
    + exact (placeFood_free fuel (draws g) INITIAL_SNAKE newFood n Ep).
    + cbn [draws setFood setDraws]. unfold placeFood in Ep.
      change (generateFood (draws g))
        with (fst (generateFood (draws g)), S (S (draws g))) in Ep.
      cbv beta iota in Ep. clear - Ep.
      assert (Hmono : forall f p m r k,
                 redrawFood f p m INITIAL_SNAKE = Some (r, k) ->
                 (m <= k)%nat).
      { induction f as [|f IH]; intros p m r k H; simpl in H.
        - destruct (isValidFoodPosition p INITIAL_SNAKE); [|discriminate].
          injection H as _ <-. apply le_n.
        - destruct (isValidFoodPosition p INITIAL_SNAKE).
          + injection H as _ <-. apply le_n.
          + apply IH in H. lia. }
      apply Hmono in Ep. lia.
  - intros [k Hk].
    destruct (placeFood_complete k (draws g) INITIAL_SNAKE Hk) as [j [_ Hp]].
    exists k. eexists. rewrite Hkey, Hp. reflexivity.
Qed.

(** X11. A key other than space changes nothing unless the game is Running
    and the [keyMap] lookup yields a direction: outside the Running state
    every such key is ignored, and in it every key that is neither in the
    table nor a property name inherited by it. *)
Theorem unmapped_or_untimely_key_is_ignored :
  forall fuel key g,
    key <> " " ->
    gameState g <> Running \/
    (keyMap key = None /\ ~ In key objectPrototypeNames) ->
    handleKeyPress fuel key g = Some g.
Proof.
  intros fuel key g Hkey Hwhy. unfold handleKeyPress.
  destruct (String.eqb key " ") eqn:E;
    [apply String.eqb_eq in E; contradiction|].
  destruct (gameStarted g) eqn:Hs; [|reflexivity]. simpl.
  destruct (isPaused g) eqn:Hp; [reflexivity|].
  destruct (gameOver g) eqn:Ho; [reflexivity|]. simpl.
  destruct Hwhy as [Hnot | [-> _]]; [|reflexivity].
  exfalso. apply Hnot. apply gameState_Running. repeat split; assumption.
Qed.

(** X12. The food moves only when it is eaten or the game restarts: an
    event that commits a different food is either a restart, or a Running
    tick that grows the snake onto the old food and adds 10 to the score. *)
Theorem food_moves_only_on_meal_or_restart :
  forall g g',
    step g g' ->
    food g' <> food g ->
    (gameOver g = true /\ snake g' = INITIAL_SNAKE /\ score g' = 0) \/
    (gameState g = Running /\ snake g' = food g :: snake g /\
     score g' = score g + 10).
Proof.
  intros g g' Hstep Hfood. apply step_effect in Hstep.
  effect_cases Hstep; try (exfalso; apply Hfood; reflexivity).
  - left. repeat split. exact Hover.
  - right. repeat split. exact Hrun.
Qed.

(** ** Reversing into the neck *)

(** X13. The reversal filter compares a key with the pending direction, not
    with the direction of the last move, so two keys between two ticks get
    past it: when the neck lies right behind the head, a turn to either side
    followed by the key for the opposite of the old direction leaves that
    opposite pending, and the next tick ends the game with the snake
    unmoved. *)
Theorem two_turns_between_ticks_reverse :
  forall fuel key1 key2 d1 g first neck rest,
    gameState g = Running ->
    snake g = first :: neck :: rest ->
    neck = moveHead (oppositeDirections (directionRef g)) first ->
    keyMap key1 = Some d1 ->
    d1 <> directionRef g ->
    d1 <> oppositeDirections (directionRef g) ->
    keyMap key2 = Some (oppositeDirections (directionRef g)) ->
    exists g1 g2,
      handleKeyPress fuel key1 g = Some g1 /\
      handleKeyPress fuel key2 g1 = Some g2 /\
      directionRef g2 = oppositeDirections (directionRef g) /\
      snake g2 = snake g /\
      gameLoop fuel g2 = Some (setGameOver true g2).
Proof.
  intros fuel key1 key2 d1 g first neck rest Hrun Es Hneck Hk1 Hside Hnot Hk2.
  exists (setDirectionRef d1 g).
  exists (setDirectionRef (oppositeDirections (directionRef g))
            (setDirectionRef d1 g)).
  assert (E1 : Direction_eqb d1 (oppositeDirections (directionRef g)) = false).
  { apply not_true_iff_false. rewrite Direction_eqb_eq. exact Hnot. }
  assert (E2 : Direction_eqb (oppositeDirections (directionRef g))
                 (oppositeDirections d1) = false).
  { apply not_true_iff_false. rewrite Direction_eqb_eq.
    intros E. apply Hside. destruct d1, (directionRef g); simpl in E;
      congruence. }
  split.
  { rewrite (handleKeyPress_movement fuel key1 d1 g Hrun Hk1), E1.
    reflexivity. }
  split.
  { rewrite (handleKeyPress_movement fuel key2
               (oppositeDirections (directionRef g))
               (setDirectionRef d1 g) Hrun Hk2).
    cbn [directionRef setDirectionRef]. rewrite E2. reflexivity. }
  split; [reflexivity|]. split; [reflexivity|].
  rewrite gameLoop_Running by exact Hrun.
  apply (tick_collision fuel
           (setDirectionRef (oppositeDirections (directionRef g))
              (setDirectionRef d1 g)) first (neck :: rest) Es).
  right. cbn [directionRef snake setDirectionRef]. rewrite <- Hneck, Es.
  right. left. reflexivity.
Qed.

(** X14. One key is not enough to reverse: after a tick from a committed
    Running state that did not end the game, whatever single key event
    follows (of a key that is not an inherited property name), the snake has
    a head and a neck and the move then pending does not lead the head onto
    the neck. *)
Theorem one_key_after_tick_never_reverses :
  forall fuel fuel' key g g1 g2,
    reachable g ->
    gameState g = Running ->
    gameLoop fuel g = Some g1 ->
    gameOver g1 = false ->
    ~ In key objectPrototypeNames ->
    handleKeyPress fuel' key g1 = Some g2 ->
    exists first neck rest,
      snake g2 = first :: neck :: rest /\
      moveHead (directionRef g2) first <> neck.
Proof.
  intros fuel fuel' key g g1 g2 Hreach Hrun Htick Hlive _ Hkey.
  pose proof (reachable_length g Hreach) as Hlen.
  rewrite (gameLoop_Running fuel g Hrun) in Htick.
  destruct (snake g) as [|old [|second [|third rest]]] eqn:Es;
    try (simpl in Hlen; lia).
  pose proof (tick_cases fuel g g1 old _ Es Htick) as Hc. cbv zeta in Hc.
  assert (Hshape : snake g1
                   = moveHead (directionRef g1) old :: old
                     :: tl (tl (snake g1)) /\
                   gameState g1 = Running).
  { destruct Hc as [[_ ->] | [[_ [_ [_ [newFood [n [_ ->]]]]]] |
                             [_ [_ [_ ->]]]]].
    - discriminate Hlive.
    - split; [rewrite Es; reflexivity | exact Hrun].
    - split; [rewrite Es; reflexivity | exact Hrun]. }
  destruct Hshape as [Hs1 Hrun1].
  assert (Haway : forall d, d <> oppositeDirections (directionRef g1) ->
            moveHead d (moveHead (directionRef g1) old) <> old).
  { intros d Hd E. apply Hd.
    apply (moveHead_direction _ _ (moveHead (directionRef g1) old)).
    rewrite E, moveHead_back. reflexivity. }
  assert (Hself : directionRef g1 <> oppositeDirections (directionRef g1))
    by (destruct (directionRef g1); discriminate).
  apply handleKeyPress_cases in Hkey.
  destruct Hkey as [-> | [[_ [Ho _]] | [[_ [_ ->]] | [d [_ [_ [Hd ->]]]]]]].
  - eexists _, _, _. split; [exact Hs1|]. apply Haway. exact Hself.
  - congruence.
  - eexists _, _, _. split; [exact Hs1|]. apply Haway. exact Hself.
  - eexists _, _, _. split; [exact Hs1|]. apply Haway. exact Hd.
Qed.

(** ** The board as drawn *)

Lemma boardIndices_In (index : nat) :
  In index boardIndices <-> (index < 400)%nat.
Proof.
  unfold boardIndices. rewrite in_seq.
  change (Z.to_nat (GRID_SIZE * GRID_SIZE)) with 400%nat. lia.
Qed.

Lemma cellOfIndex_inGrid (index : nat) :
  (index < 400)%nat -> inGrid (cellOfIndex index).
Proof.
  intros H. unfold inGrid, cellOfIndex, GRID_SIZE. simpl. split.
  - apply Z.mod_pos_bound. lia.
  - split; [apply Z.div_pos; lia | apply Z.div_lt_upper_bound; lia].
Qed.

Lemma cellOfIndex_injective (i j : nat) :
  cellOfIndex i = cellOfIndex j -> i = j.
Proof.
  unfold cellOfIndex, GRID_SIZE. intros H. injection H as Hx Hy.
  pose proof (Z.div_mod (Z.of_nat i) 20 ltac:(lia)).
  pose proof (Z.div_mod (Z.of_nat j) 20 ltac:(lia)).
  lia.
Qed.

Lemma cellOfIndex_onto (p : Position) :
  inGrid p ->
  cellOfIndex (Z.to_nat (y p * GRID_SIZE + x p)) = p /\
  (Z.to_nat (y p * GRID_SIZE + x p) < 400)%nat.
Proof.
  unfold inGrid, cellOfIndex, GRID_SIZE. intros [Hx Hy].
  rewrite Z2Nat.id by lia. split; [|lia].
  destruct p as [px py]. simpl in *. f_equal.
  - rewrite Z.add_comm, Z.mod_add by lia. apply Z.mod_small. lia.
  - rewrite Z.add_comm, Z.div_add by lia. rewrite Z.div_small by lia. lia.
Qed.

Lemma NoDup_map_injective {A B : Type} (f : A -> B) (l : list A) :
  (forall a b, f a = f b -> a = b) -> NoDup l -> NoDup (map f l).
Proof.
  intros Hinj. induction 1 as [|a l Hnotin Hnd IH]; simpl; constructor.
  - rewrite in_map_iff. intros [b [E Hin]]. apply Hinj in E. subst b.
    exact (Hnotin Hin).
  - exact IH.
Qed.

(** The cells of a duplicate-free list of board positions are drawn on as
    many indices as the list has elements. *)
Lemma drawn_count (l : list Position) :
  NoDup l -> Forall inGrid l ->
  List.length
    (filter (fun index =>
               existsb (fun segment => samePosition segment (cellOfIndex index))
                       l)
            boardIndices)
  = List.length l.
Proof.
  intros Hnd Hgrid.
  set (hit := fun index =>
         existsb (fun segment => samePosition segment (cellOfIndex index)) l).
  assert (Hhit : forall index, hit index = true <-> In (cellOfIndex index) l).
  { intros index. unfold hit. rewrite existsb_exists. split.
    - intros [segment [Hin E]]. apply samePosition_eq in E. subst. exact Hin.
    - intros Hin. exists (cellOfIndex index).
      split; [exact Hin | apply samePosition_refl]. }
  rewrite <- (length_map cellOfIndex (filter hit boardIndices)).
  apply Nat.le_antisymm.
  - apply NoDup_incl_length.
    + apply NoDup_map_injective; [exact cellOfIndex_injective|].
      apply NoDup_filter. apply seq_NoDup.
    + intros p Hp. apply in_map_iff in Hp. destruct Hp as [index [<- Hin]].
      apply filter_In in Hin. apply Hhit. apply Hin.
  - apply NoDup_incl_length; [exact Hnd|].
    intros p Hp. rewrite Forall_forall in Hgrid.
    destruct (cellOfIndex_onto p (Hgrid p Hp)) as [E Hlt].
    apply in_map_iff. exists (Z.to_nat (y p * GRID_SIZE + x p)).
    split; [exact E|]. apply filter_In. split.
    + apply boardIndices_In. exact Hlt.
    + apply Hhit. rewrite E. exact Hp.
Qed.

Lemma snake_drawn (g : Game) (index : nat) :
  isSnakeHead g index || isSnakeBody g index
  = existsb (fun segment => samePosition segment (cellOfIndex index)) (snake g).
Proof.
  unfold isSnakeHead, isSnakeBody. destruct (snake g); reflexivity.
Qed.

(** X15. The view draws the board and nothing else: each of its 400 indices
    is a cell of the board, and each cell of the board is the cell of exactly
    one index. *)
Theorem view_indices_are_the_board :
  List.length boardIndices = 400%nat /\
  (forall index, In index boardIndices -> inGrid (cellOfIndex index)) /\
  (forall p, inGrid p ->
     exists index,
       In index boardIndices /\ cellOfIndex index = p /\
       forall other, cellOfIndex other = p -> other = index).
Proof.
  split; [apply length_seq|]. split.
  - intros index H. apply cellOfIndex_inGrid. apply boardIndices_In. exact H.
  - intros p Hp. destruct (cellOfIndex_onto p Hp) as [E Hlt].
    exists (Z.to_nat (y p * GRID_SIZE + x p)).
    split; [apply boardIndices_In; exact Hlt|]. split; [exact E|].
    intros other Ho. apply cellOfIndex_injective. congruence.
Qed.

(** X16. In every state the component commits a cell is drawn as head or
    body exactly when its position is a segment of the snake, and no cell
    gets two roles: its class is that of an empty cell, of the head, of the
    body or of the food, never a mixture. *)
Theorem view_cell_has_one_role :
  forall g index,
    reachable g ->
    (isSnakeHead g index || isSnakeBody g index = true <->
     In (cellOfIndex index) (snake g)) /\
    (isFood g index = true <-> food g = cellOfIndex index) /\
    In (className g index)
       ["cell   "; "cell snake-head  "; "cell  snake-body "; "cell   food"].
Proof.
  intros g index Hreach.
  destruct (reachable_invariant g Hreach) as [[Hne [Hnd _]] [Hfood _]].
  split; [rewrite snake_drawn; apply (hitsSelf_In (cellOfIndex index))|].
  split; [apply samePosition_eq|].
  unfold className.
  destruct (isSnakeHead g index) eqn:Eh, (isSnakeBody g index) eqn:Eb,
           (isFood g index) eqn:Ef; simpl; try tauto; exfalso.
  all: unfold isSnakeHead, isSnakeBody, isFood in *;
    destruct (snake g) as [|first rest]; [congruence|];
    try (apply samePosition_eq in Eh);
    try (apply samePosition_eq in Ef);
    try (apply (hitsSelf_In (cellOfIndex index) rest) in Eb).
  - inversion Hnd; subst. congruence.
  - inversion Hnd; subst. congruence.
  - apply Hfood. left. congruence.
  - apply Hfood. right. rewrite Ef. exact Eb.
Qed.

(** X17. In every state the component commits, with a source that keeps to
    [0, 1), the board shows the whole game: as many cells drawn as snake as
    the snake has segments, exactly one of them as head, and exactly one cell
    drawn as food. *)
Theorem view_shows_every_segment :
  forall g,
    unitSource ->
    reachable g ->
    List.length
      (filter (fun index => isSnakeHead g index || isSnakeBody g index)
              boardIndices)
    = List.length (snake g) /\
    List.length (filter (isSnakeHead g) boardIndices) = 1%nat /\
    List.length (filter (isFood g) boardIndices) = 1%nat.
Proof.
  intros g Hu Hreach.
  destruct (reachable_invariant g Hreach) as [[Hne [Hnd Hgrid]] _].
  pose proof (reachable_food_inGrid g Hu Hreach) as Hfood.
  split; [|split].
  - rewrite (filter_ext _ _ (snake_drawn g)). apply drawn_count; assumption.
  - destruct (snake g) as [|first rest] eqn:Es; [congruence|].
    rewrite (filter_ext (isSnakeHead g)
               (fun index =>
                  existsb (fun segment =>
                             samePosition segment (cellOfIndex index))
                          [first])).
    + apply (drawn_count [first]).
      * constructor; [intros []|constructor].
      * constructor; [|constructor]. inversion Hgrid; assumption.
    + intros index. unfold isSnakeHead. rewrite Es. simpl.
      rewrite orb_false_r. reflexivity.
  - rewrite (filter_ext (isFood g)
               (fun index =>
                  existsb (fun segment =>
                             samePosition segment (cellOfIndex index))
                          [food g])).
    + apply (drawn_count [food g]).
      * constructor; [intros []|constructor].
      * constructor; [exact Hfood|constructor].
    + intros index. unfold isFood. simpl. rewrite orb_false_r. reflexivity.
Qed.

(** X18. In every state the component commits, with a source that keeps to
    [0, 1), the snake never fills the board: the food is a free cell, so the
    snake has at most 399 segments and the score is at most 3960. *)
Theorem snake_never_fills_board :
  forall g,
    unitSource ->
    reachable g ->
    hasFreeCell (snake g) /\
    (List.length (snake g) <= 399)%nat /\
    score g <= 3960.
Proof.
  intros g Hu Hreach.
  destruct (reachable_invariant g Hreach) as [[Hne [Hnd Hgrid]] [Hoff _]].
  pose proof (reachable_food_inGrid g Hu Hreach) as Hfood.
  assert (Hlen : (List.length (snake g) <= 399)%nat).
  { assert (H : (List.length (food g :: snake g)
                 <= List.length (map cellOfIndex boardIndices))%nat).
    { apply NoDup_incl_length; [constructor; assumption|].
      intros p Hp.
      assert (Hin : inGrid p).
      { destruct Hp as [<- | Hp]; [exact Hfood|].
        rewrite Forall_forall in Hgrid. exact (Hgrid p Hp). }
      destruct (cellOfIndex_onto p Hin) as [E Hlt].
      apply in_map_iff. exists (Z.to_nat (y p * GRID_SIZE + x p)).
      split; [exact E | apply boardIndices_In; exact Hlt]. }
    rewrite length_map in H. unfold boardIndices in H.
    rewrite length_seq in H.
    change (Z.to_nat (GRID_SIZE * GRID_SIZE)) with 400%nat in H.
    simpl List.length in H. lia. }
  split; [exists (food g); split; assumption|].
  split; [exact Hlen|].
  rewrite (reachable_score g Hreach). lia.
Qed.

(** X19. The three overlays never overlap and follow the game state: the
    start prompt is shown exactly in NotStarted, the game-over banner exactly
    in GameOver, the paused banner exactly in Paused, and none in Running. *)
Theorem overlays_follow_game_state :
  forall g,
    (showStartOverlay g = true <-> gameState g = NotStarted) /\
    (showGameOverOverlay g = true <-> gameState g = GameOver) /\
    (showPausedOverlay g = true <-> gameState g = Paused) /\
    (gameState g = Running <->
     showStartOverlay g = false /\ showGameOverOverlay g = false /\
     showPausedOverlay g = false).
Proof.
  intros g.
  unfold showStartOverlay, showGameOverOverlay, showPausedOverlay, gameState.
  destruct (gameStarted g), (gameOver g), (isPaused g); simpl;
    repeat split; intros; try discriminate; try reflexivity;
    repeat match goal with H : _ /\ _ |- _ => destruct H end;
    discriminate.
Qed.

(** ** The interval *)

Lemma runEffects_tidy (renders : list (Game * positive)) :
  let (t, cleanup) := runEffects renders in
  match gameLoopRef t with
  | Some handle => intervals t = [handle] /\ cleanup = true
  | None => intervals t = [] /\ cleanup = false
  end.
Proof.
  unfold runEffects.
  induction renders as [|[g handle] renders IH] using rev_ind;
    [simpl; split; reflexivity|].
  rewrite fold_left_app. simpl.
  destruct (fold_left rerunEffect renders
              ({| gameLoopRef := None; intervals := [] |}, false))
    as [t cleanup].
  unfold rerunEffect, gameLoopEffect, stopLoop, clearInterval. simpl.
  destruct t as [[old|] running]; simpl in IH; destruct IH as [-> ->]; simpl;
    destruct (negb (gameStarted g) || isPaused g || gameOver g); simpl;
    try (destruct (Pos.eq_dec old old) as [_|Hn]; [|contradiction]);
    split; reflexivity.
Qed.

(** X20. However often the effect is run again, after each run exactly one
    interval is live when the rendered state is Running, the one whose handle
    [gameLoopRef] holds, and none is live otherwise; unmounting leaves none.
    No interval is leaked and none doubled. *)
Theorem one_interval_while_running :
  forall (renders : list (Game * positive)) (g : Game) (handle : positive),
    let after := runEffects (renders ++ [(g, handle)]) in
    (gameState g = Running ->
     intervals (fst after) = [handle] /\
     gameLoopRef (fst after) = Some handle) /\
    (gameState g <> Running ->
     intervals (fst after) = [] /\ gameLoopRef (fst after) = None) /\
    intervals (unmount after) = [] /\
    (List.length (intervals (fst after)) <= 1)%nat.
Proof.
  intros renders g handle after.
  pose proof (runEffects_tidy renders) as Hbefore.
  pose proof (runEffects_tidy (renders ++ [(g, handle)])) as Hafter.
  fold after in Hafter.
  assert (Hstep : after = rerunEffect (runEffects renders) (g, handle)).
  { unfold after, runEffects. rewrite fold_left_app. reflexivity. }
  destruct (runEffects renders) as [t cleanup].
  assert (Hclean : intervals (if cleanup then stopLoop t else t) = []).
  { unfold stopLoop, clearInterval.
    destruct (gameLoopRef t) as [old|] eqn:E; destruct Hbefore as [Hi ->].
    - simpl. rewrite Hi. simpl.
      destruct (Pos.eq_dec old old); [reflexivity | contradiction].
    - exact Hi. }
  unfold rerunEffect, gameLoopEffect in Hstep. simpl in Hstep.
  split; [|split; [|split]].
  - intros Hrun. apply gameState_Running in Hrun.
    destruct Hrun as [A [B C]]. rewrite A, B, C in Hstep. simpl in Hstep.
    rewrite Hstep. simpl. rewrite Hclean. split; reflexivity.
  - intros Hnot.
    destruct (negb (gameStarted g) || isPaused g || gameOver g) eqn:E.
    + rewrite Hstep. simpl.
      destruct after as [t' c']. injection Hstep as -> ->.
      destruct (gameLoopRef (stopLoop (if cleanup then stopLoop t else t)));
        destruct Hafter as [Hi Hc]; [discriminate|].
      split; [exact Hi | reflexivity].
    + exfalso. apply Hnot. apply gameState_Running.
      destruct (gameStarted g), (isPaused g), (gameOver g);
        try discriminate. repeat split.
  - destruct after as [t' c']. unfold unmount, stopLoop, clearInterval.
    simpl. destruct (gameLoopRef t') as [h|] eqn:E;
      destruct Hafter as [Hi ->].
    + simpl. rewrite Hi. simpl.
      destruct (Pos.eq_dec h h); [reflexivity | contradiction].
    + exact Hi.
  - destruct after as [t' c']. simpl.
    destruct (gameLoopRef t'); destruct Hafter as [-> _]; simpl; lia.
Qed.

(** ** The food and the tick, once more *)

(** X21. In every state the component commits the food is not on the
    snake, and with a source that keeps to [0, 1) it is on the board. *)
Theorem food_is_never_on_snake :
  forall g,
    reachable g ->
    ~ In (food g) (snake g) /\
    (unitSource -> inGrid (food g)).
Proof.
  intros g Hreach. split.
  - destruct (reachable_invariant g Hreach) as [_ [H _]]. exact H.
  - intros Hu. exact (reachable_food_inGrid g Hu Hreach).
Qed.

(** X22. A tick never writes the pending direction, the pause flag or the
    started flag, and when it does not end the game the head it commits is
    the old head moved one step along the pending direction: without a key
    the snake keeps going the way it went. *)
Theorem tick_keeps_course :
  forall fuel g g' first rest,
    gameState g = Running ->
    snake g = first :: rest ->
    gameLoop fuel g = Some g' ->
    directionRef g' = directionRef g /\
    isPaused g' = isPaused g /\
    gameStarted g' = gameStarted g /\
    (gameOver g' = false ->
     hd first (snake g') = moveHead (directionRef g) first /\
     gameState g' = Running).
Proof.
  intros fuel g g' first rest Hrun Es H.
  rewrite (gameLoop_Running fuel g Hrun) in H.
  pose proof (tick_cases fuel g g' first rest Es H) as Hc. cbv zeta in Hc.
  destruct Hc as [[_ ->] | [[_ [_ [_ [newFood [n [_ ->]]]]]] |
                           [_ [_ [_ ->]]]]].
  - repeat split; discriminate.
  - repeat split. exact Hrun.
  - repeat split; [|exact Hrun]. rewrite Es. reflexivity.
Qed.

(** X23. Mounting only places the food: whatever the mount effect commits
    is the first render with a new food, one that is off the initial snake,
    and the game is still NotStarted; the effect does commit once the source
    draws a cell off the initial snake. *)
Theorem mount_only_places_food :
  forall fuel,
    (forall g,
        initFood fuel firstRender = Some g ->
        g = setFood (food g) (setDraws (draws g) firstRender) /\
        ~ In (food g) INITIAL_SNAKE /\
        gameState g = NotStarted) /\
    (eventuallyFree 0 INITIAL_SNAKE ->
     exists fuel' g, initFood fuel' firstRender = Some g).
Proof.
  intros fuel. split.
  - intros g H. apply initFood_firstRender in H.
    destruct H as [newFood [n [Hp ->]]]. split; [reflexivity|].
    split; [|reflexivity].
    exact (placeFood_free fuel 0 INITIAL_SNAKE newFood n Hp).
  - intros [k Hk].
    destruct (placeFood_complete k 0 INITIAL_SNAKE Hk) as [j [_ Hp]].
    exists k. eexists. unfold initFood.
    change (draws firstRender) with 0%nat.
    change (snake firstRender) with INITIAL_SNAKE.
    rewrite Hp. reflexivity.
Qed.

End WithRandom.

(** ** The handlers on fixed inputs *)

Lemma scriptedSource_unit : unitSource scriptedSource.
Proof.
  intros n. destruct n as [|[|n]]; split; vm_compute;
    try reflexivity; discriminate.
Qed.

Lemma alwaysHalf_unit : unitSource alwaysHalf.
Proof. intros n. split; vm_compute; [discriminate | reflexivity]. Qed.

Lemma INITIAL_SNAKE_leaves_room : hasFreeCell INITIAL_SNAKE.
Proof.
  exists {| x := 0; y := 0 |}. split.
  - unfold inGrid, GRID_SIZE. simpl. lia.
  - apply isValidFoodPosition_spec. reflexivity.
Qed.

Lemma mountedGame_reachable : reachable scriptedSource mountedGame.
Proof. apply (reachable_mount scriptedSource 0). reflexivity. Qed.

Lemma runningGame_reachable : reachable scriptedSource runningGame.
Proof.
  apply (reachable_step scriptedSource mountedGame).
  - exact mountedGame_reachable.
  - apply step_start. reflexivity.
Qed.

(** Scenario A of the specification: one tick upwards with the food
    elsewhere shifts the snake and leaves the score alone. *)
Example scenario_A :
  gameLoop alwaysHalf 0 (setFood {| x := 15; y := 15 |} runningGame)
  = Some (setSnake [ {| x := 10; y := 9 |}; {| x := 10; y := 10 |};
                     {| x := 10; y := 11 |} ]
            (setFood {| x := 15; y := 15 |} runningGame)).
Proof. reflexivity. Qed.

(** The tick that eats the food at (10, 9): the snake grows, the score goes
    up by 10 and the food moves to (15, 15). *)
Example scenario_B :
  gameLoop scriptedSource 0 runningGame
  = Some {| snake := [ {| x := 10; y := 9 |}; {| x := 10; y := 10 |};
                       {| x := 10; y := 11 |}; {| x := 10; y := 12 |} ];
            food := {| x := 15; y := 15 |};
            gameOver := false;
            score := 10;
            isPaused := false;
            gameStarted := true;
            directionRef := UP;
            draws := 4%nat |}.
Proof. reflexivity. Qed.

(** Scenario C: heading left at the left wall ends the game and leaves the
    snake where it was. *)
Example scenario_C :
  gameLoop alwaysHalf 0 leftEdgeGame = Some (setGameOver true leftEdgeGame).
Proof. reflexivity. Qed.

(** Scenario D: space after a game over resets everything and draws a new
    food. *)
Example scenario_D :
  handleKeyPress scriptedSource 0 " " (setGameOver true leftEdgeGame)
  = Some {| snake := INITIAL_SNAKE;
            food := {| x := 15; y := 15 |};
            gameOver := false;
            score := 0;
            isPaused := false;
            gameStarted := true;
            directionRef := UP;
            draws := 4%nat |}.
Proof. reflexivity. Qed.

(** With a source that always answers 1/2 every candidate is (10, 10), the
    head of the initial snake, and the loop never exits. *)
Lemma alwaysHalf_never_exits (fuel : nat) :
  forall n,
    redrawFood alwaysHalf fuel {| x := 10; y := 10 |} n INITIAL_SNAKE = None.
Proof.
  induction fuel as [|fuel IH]; intros n; [reflexivity|].
  change (redrawFood alwaysHalf (S fuel) {| x := 10; y := 10 |} n
            INITIAL_SNAKE)
    with (redrawFood alwaysHalf fuel {| x := 10; y := 10 |} (S (S n))
            INITIAL_SNAKE).
  apply IH.
Qed.

(** ** The claims on fixed inputs *)

(** C1 as first stated fails: on the freshly mounted component, which is
    NotStarted, the space key is handled and flips [isPaused] from false to
    true. *)
Lemma space_before_start_counterexample :
  reachable scriptedSource mountedGame /\
  gameState mountedGame = NotStarted /\
  handleKeyPress scriptedSource 0 " " mountedGame
  = Some (setIsPaused true mountedGame) /\
  isPaused mountedGame = false /\
  isPaused (setIsPaused true mountedGame) = true /\
  setIsPaused true mountedGame <> mountedGame.
Proof.
  split; [exact mountedGame_reachable|].
  repeat split. discriminate.
Qed.

Lemma space_before_start_only_flips_pause_witness :
  reachable scriptedSource mountedGame /\
  gameState mountedGame = NotStarted /\
  (exists g',
      handleKeyPress scriptedSource 0 " " mountedGame = Some g' /\
      isPaused g' = true /\
      gameState g' = NotStarted /\
      startGame g' = startGame mountedGame) /\
  handleKeyPress scriptedSource 0 "w" mountedGame = Some mountedGame.
Proof.
  split; [exact mountedGame_reachable|]. split; [reflexivity|].
  destruct (space_before_start_only_flips_pause scriptedSource 0 mountedGame
              mountedGame_reachable eq_refl) as [[g' Hg'] Hother].
  split.
  - exists g'. destruct Hg' as [A [B [_ [_ [_ [_ [_ [_ [_ [C D]]]]]]]]]].
    repeat split; assumption.
  - apply Hother. discriminate.
Defined.

Lemma self_collision_checks_whole_body_witness :
  hitsSelf {| x := 5; y := 6 |} (snake curledGame) = true /\
  tick alwaysHalf 0 curledGame = Some (setGameOver true curledGame).
Proof.
  destruct (self_collision_checks_whole_body alwaysHalf) as [_ [Htail Htick]].
  split.
  - apply (Htail _ {| x := 0; y := 0 |}); [discriminate | reflexivity].
  - apply (Htick 0%nat curledGame {| x := 5; y := 5 |}
             [ {| x := 6; y := 5 |}; {| x := 6; y := 6 |};
               {| x := 5; y := 6 |} ]); reflexivity.
Defined.

Lemma collision_tick_is_atomic_witness :
  gameState leftEdgeGame = Running /\
  exists g',
    gameLoop alwaysHalf 0 leftEdgeGame = Some g' /\
    gameState g' = GameOver /\
    snake g' = snake leftEdgeGame /\
    score g' = score leftEdgeGame /\
    food g' = food leftEdgeGame /\
    draws g' = draws leftEdgeGame.
Proof.
  split; [reflexivity|].
  apply (collision_tick_is_atomic alwaysHalf 0 leftEdgeGame
           {| x := 0; y := 3 |}
           [ {| x := 1; y := 3 |}; {| x := 2; y := 3 |} ]
           eq_refl eq_refl).
  left. reflexivity.
Defined.

Lemma tick_length_accounting_witness :
  gameState runningGame = Running /\
  hitsWall {| x := 10; y := 9 |} = false /\
  ~ In {| x := 10; y := 9 |} (snake runningGame) /\
  (forall g',
      gameLoop scriptedSource 0 runningGame = Some g' ->
      List.length (snake g') = 4%nat) /\
  exists g',
    gameLoop alwaysHalf 0 (setFood {| x := 15; y := 15 |} runningGame)
    = Some g' /\
    List.length (snake g') = 3%nat.
Proof.
  assert (Hoff : ~ In {| x := 10; y := 9 |} INITIAL_SNAKE)
    by (apply isValidFoodPosition_spec; reflexivity).
  split; [reflexivity|]. split; [reflexivity|]. split; [exact Hoff|]. split.
  - destruct (tick_length_accounting scriptedSource 0 runningGame
                {| x := 10; y := 10 |}
                [ {| x := 10; y := 11 |}; {| x := 10; y := 12 |} ]
                eq_refl eq_refl eq_refl Hoff) as [_ Heat].
    destruct (Heat eq_refl) as [Hlen _]. exact Hlen.
  - destruct (tick_length_accounting alwaysHalf 0
                (setFood {| x := 15; y := 15 |} runningGame)
                {| x := 10; y := 10 |}
                [ {| x := 10; y := 11 |}; {| x := 10; y := 12 |} ]
                eq_refl eq_refl eq_refl Hoff) as [Hshift _].
    apply Hshift. discriminate.
Defined.

Lemma eating_tick_commit_witness :
  unitSource scriptedSource /\
  reachable scriptedSource runningGame /\
  gameState runningGame = Running /\
  moveHead (directionRef runningGame) {| x := 10; y := 10 |}
  = food runningGame /\
  forall g',
    gameLoop scriptedSource 0 runningGame = Some g' ->
    score g' = 10 /\
    snake g' = {| x := 10; y := 9 |} :: INITIAL_SNAKE /\
    ~ In (food g') (snake g') /\
    food g' <> {| x := 10; y := 9 |} /\
    inGrid (food g') /\
    gameState g' = Running.
Proof.
  split; [exact scriptedSource_unit|].
  split; [exact runningGame_reachable|].
  split; [reflexivity|]. split; [reflexivity|].
  destruct (eating_tick_commit scriptedSource 0 runningGame
              {| x := 10; y := 10 |}
              [ {| x := 10; y := 11 |}; {| x := 10; y := 12 |} ]
              scriptedSource_unit runningGame_reachable
              eq_refl eq_refl eq_refl) as [Hcommit _].
  exact Hcommit.
Defined.

Lemma placed_food_is_free_and_on_board_witness :
  unitSource scriptedSource /\
  hasFreeCell INITIAL_SNAKE /\
  placeFood scriptedSource 0 0 INITIAL_SNAKE
  = Some ({| x := 10; y := 9 |}, 2%nat) /\
  ~ In {| x := 10; y := 9 |} INITIAL_SNAKE /\
  0 <= 10 < GRID_SIZE /\ 0 <= 9 < GRID_SIZE.
Proof.
  split; [exact scriptedSource_unit|].
  split; [exact INITIAL_SNAKE_leaves_room|].
  split; [reflexivity|].
  exact (placed_food_is_free_and_on_board scriptedSource 0 0 INITIAL_SNAKE
           {| x := 10; y := 9 |} 2%nat
           scriptedSource_unit INITIAL_SNAKE_leaves_room eq_refl).
Defined.

(** C7 as first stated fails: the initial snake leaves 397 cells free and
    the source keeps to [0, 1), yet food placement returns for no fuel. *)
Lemma placement_need_not_terminate_counterexample :
  unitSource alwaysHalf /\
  hasFreeCell INITIAL_SNAKE /\
  ~ (exists fuel r, placeFood alwaysHalf fuel 0 INITIAL_SNAKE = Some r).
Proof.
  split; [exact alwaysHalf_unit|].
  split; [exact INITIAL_SNAKE_leaves_room|].
  intros [fuel [r H]]. unfold placeFood in H.
  change (generateFood alwaysHalf 0)
    with ({| x := 10; y := 10 |}, 2%nat) in H.
  cbv beta iota in H. rewrite alwaysHalf_never_exits in H. discriminate.
Qed.

Lemma placement_terminates_on_eventual_free_draw_witness :
  eventuallyFree scriptedSource 0 INITIAL_SNAKE /\
  exists fuel j p n',
    placeFood scriptedSource fuel 0 INITIAL_SNAKE = Some (p, n') /\
    p = candidate scriptedSource 0 j /\
    n' = (0 + 2 * S j)%nat /\
    ~ In p INITIAL_SNAKE /\
    forall extra,
      placeFood scriptedSource (fuel + extra) 0 INITIAL_SNAKE = Some (p, n').
Proof.
  assert (H : eventuallyFree scriptedSource 0 INITIAL_SNAKE)
    by (exists 0%nat; reflexivity).
  split; [exact H|].
  exact (placement_terminates_on_eventual_free_draw scriptedSource 0
           INITIAL_SNAKE H).
Defined.

Lemma direction_filter_witness :
  gameState runningGame = Running /\
  directionRef runningGame = UP /\
  handleKeyPress scriptedSource 0 "ArrowDown" runningGame
  = Some runningGame /\
  handleKeyPress scriptedSource 0 "s" runningGame = Some runningGame /\
  handleKeyPress scriptedSource 0 "ArrowLeft" runningGame
  = Some (setDirectionRef LEFT runningGame) /\
  handleKeyPress scriptedSource 0 "d" (setDirectionRef LEFT runningGame)
  = Some (setDirectionRef LEFT runningGame) /\
  gameLoop scriptedSource 0 (setDirectionRef LEFT runningGame)
  = Some (setSnake [ {| x := 9; y := 10 |}; {| x := 10; y := 10 |};
                     {| x := 10; y := 11 |} ]
            (setDirectionRef LEFT runningGame)).
Proof.
  split; [reflexivity|]. split; [reflexivity|].
  split.
  { apply (direction_filter scriptedSource 0 "ArrowDown" DOWN runningGame
             eq_refl).
    simpl. tauto. }
  split.
  { apply (direction_filter scriptedSource 0 "s" DOWN runningGame eq_refl).
    simpl. tauto. }
  destruct (direction_filter scriptedSource 0 "ArrowLeft" LEFT runningGame
              eq_refl) as [Hturn [_ Htick]]; [simpl; tauto|].
  split; [exact Hturn|].
  split.
  { apply (direction_filter scriptedSource 0 "d" RIGHT
             (setDirectionRef LEFT runningGame) eq_refl).
    simpl. tauto. }
  destruct (Htick 0%nat {| x := 10; y := 10 |}
              [ {| x := 10; y := 11 |}; {| x := 10; y := 12 |} ] eq_refl)
    as [_ [Hshift _]].
  apply Hshift.
  - reflexivity.
  - apply isValidFoodPosition_spec. reflexivity.
  - discriminate.
Defined.

Lemma reachable_snake_invariant_witness :
  reachable scriptedSource runningGame /\
  snake runningGame <> [] /\
  NoDup (snake runningGame) /\
  Forall (fun p => 0 <= x p < GRID_SIZE /\ 0 <= y p < GRID_SIZE)
         (snake runningGame).
Proof.
  split; [exact runningGame_reachable|].
  exact (reachable_snake_invariant scriptedSource runningGame
           runningGame_reachable).
Defined.

Lemma movement_key_frame_witness :
  gameState runningGame = Running /\
  In "a" movementKeys /\
  exists g',
    handleKeyPress scriptedSource 0 "a" runningGame = Some g' /\
    snake g' = snake runningGame /\
    food g' = food runningGame /\
    score g' = score runningGame /\
    gameOver g' = gameOver runningGame /\
    isPaused g' = isPaused runningGame /\
    gameStarted g' = gameStarted runningGame /\
    gameState g' = gameState runningGame /\
    draws g' = draws runningGame.
Proof.
  assert (Hkey : In "a" movementKeys) by (simpl; tauto).
  split; [reflexivity|]. split; [exact Hkey|].
  exact (movement_key_frame scriptedSource 0 "a" runningGame eq_refl Hkey).
Defined.

(** ** The further properties on fixed inputs *)

Lemma fedGame_reachable : reachable scriptedSource fedGame.
Proof.
  apply (reachable_step scriptedSource runningGame).
  - exact runningGame_reachable.
  - apply (step_tick scriptedSource 0); reflexivity.
Qed.

Lemma runningGame_pauses : step scriptedSource runningGame pausedGame.
Proof. apply (step_key scriptedSource 0 " "). reflexivity. Qed.

Lemma pausedGame_resumes : step scriptedSource pausedGame runningGame.
Proof. apply (step_key scriptedSource 0 " "). reflexivity. Qed.

Lemma corner_inGrid : inGrid {| x := 0; y := 19 |}.
Proof. unfold inGrid, GRID_SIZE. simpl. lia. Qed.

Lemma wall_hit_only_from_edge_witness :
  inGrid {| x := 0; y := 19 |} /\
  hitsWall (moveHead LEFT {| x := 0; y := 19 |}) = true /\
  hitsWall (moveHead UP {| x := 0; y := 19 |}) = false.
Proof.
  split; [exact corner_inGrid|]. split.
  - apply (wall_hit_only_from_edge LEFT _ corner_inGrid).
    right; right; left. split; reflexivity.
  - apply not_true_iff_false. intros H.
    apply (wall_hit_only_from_edge UP _ corner_inGrid) in H.
    destruct H as [[_ H] | [[H _] | [[H _] | [H _]]]]; discriminate H.
Defined.

Lemma reachable_snake_is_path_witness :
  reachable scriptedSource fedGame /\ contiguous (snake fedGame).
Proof.
  split; [exact fedGame_reachable|].
  exact (reachable_snake_is_path scriptedSource fedGame fedGame_reachable).
Defined.

Lemma reachable_score_counts_growth_witness :
  reachable scriptedSource fedGame /\
  (3 <= List.length (snake fedGame))%nat /\
  score fedGame = 10 * (Z.of_nat (List.length (snake fedGame)) - 3).
Proof.
  split; [exact fedGame_reachable|].
  exact (reachable_score_counts_growth scriptedSource fedGame
           fedGame_reachable).
Defined.

Lemma start_begins_from_initial_layout_witness :
  reachable scriptedSource mountedGame /\
  gameState mountedGame = NotStarted /\
  snake mountedGame = INITIAL_SNAKE /\
  gameState (startGame mountedGame) = Running.
Proof.
  split; [exact mountedGame_reachable|]. split; [reflexivity|].
  destruct (start_begins_from_initial_layout scriptedSource mountedGame
              mountedGame_reachable eq_refl) as [A [_ [_ [_ [B _]]]]].
  split; assumption.
Defined.

Lemma game_state_moves_witness :
  reachable scriptedSource runningGame /\
  step scriptedSource runningGame pausedGame /\
  allowedMove (gameState runningGame) (gameState pausedGame) = true.
Proof.
  split; [exact runningGame_reachable|]. split; [exact runningGame_pauses|].
  exact (proj1 (game_state_moves scriptedSource runningGame pausedGame
                  runningGame_reachable runningGame_pauses)).
Defined.

Lemma pause_then_resume_restores_witness :
  gameState fedGame = Running /\
  exists p,
    handleKeyPress scriptedSource 0 " " fedGame = Some p /\
    gameState p = Paused /\
    handleKeyPress scriptedSource 0 " " p = Some fedGame.
Proof.
  split; [reflexivity|].
  destruct (pause_then_resume_restores scriptedSource 0 fedGame eq_refl)
    as [p [A [B [_ [_ [_ [_ C]]]]]]].
  exists p. repeat split; assumption.
Defined.

Lemma paused_state_is_frozen_witness :
  gameState pausedGame = Paused /\
  step scriptedSource pausedGame runningGame /\
  (runningGame = pausedGame \/
   (runningGame = setIsPaused false pausedGame /\
    gameState runningGame = Running)).
Proof.
  split; [reflexivity|]. split; [exact pausedGame_resumes|].
  exact (paused_state_is_frozen scriptedSource pausedGame runningGame
           eq_refl pausedGame_resumes).
Defined.

Lemma crashedGame_restarts : step scriptedSource crashedGame restartedGame.
Proof. apply (step_key scriptedSource 0 " "). reflexivity. Qed.

Lemma game_over_left_only_by_restart_witness :
  gameState crashedGame = GameOver /\
  step scriptedSource crashedGame restartedGame /\
  (restartedGame = crashedGame \/
   (gameState restartedGame = Running /\
    snake restartedGame = INITIAL_SNAKE /\
    score restartedGame = 0 /\
    directionRef restartedGame = INITIAL_DIRECTION /\
    ~ In (food restartedGame) INITIAL_SNAKE)).
Proof.
  split; [reflexivity|]. split; [exact crashedGame_restarts|].
  exact (game_over_left_only_by_restart scriptedSource crashedGame
           restartedGame eq_refl crashedGame_restarts).
Defined.

Lemma restart_is_fresh_start_witness :
  gameState crashedGame = GameOver /\
  forall g',
    handleKeyPress scriptedSource 0 " " crashedGame = Some g' ->
    g' = setFood (food g') (setDraws (draws g') (startGame firstRender)) /\
    ~ In (food g') INITIAL_SNAKE /\
    (draws crashedGame < draws g')%nat.
Proof.
  split; [reflexivity|].
  exact (proj1 (restart_is_fresh_start scriptedSource 0 crashedGame eq_refl)).
Defined.

Lemma Enter_not_inherited : ~ In "Enter" objectPrototypeNames.
Proof.
  unfold objectPrototypeNames. simpl. intros H.
  repeat (destruct H as [H | H]; [discriminate H|]). exact H.
Qed.

Lemma ArrowLeft_not_inherited : ~ In "ArrowLeft" objectPrototypeNames.
Proof.
  unfold objectPrototypeNames. simpl. intros H.
  repeat (destruct H as [H | H]; [discriminate H|]). exact H.
Qed.

Lemma unmapped_or_untimely_key_is_ignored_witness :
  "Enter" <> " " /\
  keyMap "Enter" = None /\
  ~ In "Enter" objectPrototypeNames /\
  handleKeyPress scriptedSource 0 "Enter" fedGame = Some fedGame /\
  handleKeyPress scriptedSource 0 "ArrowLeft" pausedGame = Some pausedGame.
Proof.
  assert (H1 : "Enter" <> " ") by discriminate.
  assert (H2 : "ArrowLeft" <> " ") by discriminate.
  split; [exact H1|]. split; [reflexivity|].
  split; [exact Enter_not_inherited|]. split.
  - apply (unmapped_or_untimely_key_is_ignored scriptedSource 0 "Enter"
             fedGame H1). right. split; [reflexivity|].
    exact Enter_not_inherited.
  - apply (unmapped_or_untimely_key_is_ignored scriptedSource 0 "ArrowLeft"
             pausedGame H2). left. discriminate.
Defined.

Lemma runningGame_eats : step scriptedSource runningGame fedGame.
Proof. apply (step_tick scriptedSource 0); reflexivity. Qed.

Lemma food_moves_only_on_meal_or_restart_witness :
  step scriptedSource runningGame fedGame /\
  food fedGame <> food runningGame /\
  ((gameOver runningGame = true /\ snake fedGame = INITIAL_SNAKE /\
    score fedGame = 0) \/
   (gameState runningGame = Running /\
    snake fedGame = food runningGame :: snake runningGame /\
    score fedGame = score runningGame + 10)).
Proof.
  assert (H : food fedGame <> food runningGame) by discriminate.
  split; [exact runningGame_eats|]. split; [exact H|].
  exact (food_moves_only_on_meal_or_restart scriptedSource runningGame fedGame
           runningGame_eats H).
Defined.

Lemma two_turns_between_ticks_reverse_witness :
  gameState topRowGame = Running /\
  keyMap "s" = Some DOWN /\
  keyMap "ArrowLeft" = Some (oppositeDirections (directionRef topRowGame)) /\
  exists g1 g2,
    handleKeyPress scriptedSource 0 "s" topRowGame = Some g1 /\
    handleKeyPress scriptedSource 0 "ArrowLeft" g1 = Some g2 /\
    directionRef g2 = LEFT /\
    snake g2 = snake topRowGame /\
    gameLoop scriptedSource 0 g2 = Some (setGameOver true g2).
Proof.
  split; [reflexivity|]. split; [reflexivity|]. split; [reflexivity|].
  apply (two_turns_between_ticks_reverse scriptedSource 0 "s" "ArrowLeft"
           DOWN topRowGame {| x := 7; y := 0 |} {| x := 6; y := 0 |}
           [ {| x := 5; y := 0 |}; {| x := 5; y := 1 |};
             {| x := 5; y := 2 |} ]);
    try reflexivity; discriminate.
Defined.

Lemma one_key_after_tick_never_reverses_witness :
  reachable scriptedSource runningGame /\
  gameLoop scriptedSource 0 runningGame = Some fedGame /\
  ~ In "ArrowLeft" objectPrototypeNames /\
  handleKeyPress scriptedSource 0 "ArrowLeft" fedGame
  = Some (setDirectionRef LEFT fedGame) /\
  exists first neck rest,
    snake (setDirectionRef LEFT fedGame) = first :: neck :: rest /\
    moveHead (directionRef (setDirectionRef LEFT fedGame)) first <> neck.
Proof.
  split; [exact runningGame_reachable|]. split; [reflexivity|].
  split; [exact ArrowLeft_not_inherited|]. split; [reflexivity|].
  exact (one_key_after_tick_never_reverses scriptedSource 0 0 "ArrowLeft"
           runningGame fedGame (setDirectionRef LEFT fedGame)
           runningGame_reachable eq_refl eq_refl eq_refl
           ArrowLeft_not_inherited eq_refl).
Defined.

Lemma view_indices_are_the_board_witness :
  inGrid {| x := 0; y := 19 |} /\
  exists index,
    In index boardIndices /\ cellOfIndex index = {| x := 0; y := 19 |} /\
    forall other, cellOfIndex other = {| x := 0; y := 19 |} -> other = index.
Proof.
  split; [exact corner_inGrid|].
  destruct view_indices_are_the_board as [_ [_ H]].
  exact (H _ corner_inGrid).
Defined.

Lemma view_cell_has_one_role_witness :
  reachable scriptedSource fedGame /\
  In (className fedGame 190)
     ["cell   "; "cell snake-head  "; "cell  snake-body "; "cell   food"].
Proof.
  split; [exact fedGame_reachable|].
  destruct (view_cell_has_one_role scriptedSource fedGame 190
              fedGame_reachable) as [_ [_ H]].
  exact H.
Defined.

Lemma view_shows_every_segment_witness :
  unitSource scriptedSource /\
  reachable scriptedSource fedGame /\
  List.length
    (filter (fun index => isSnakeHead fedGame index || isSnakeBody fedGame index)
            boardIndices)
  = 4%nat /\
  List.length (filter (isSnakeHead fedGame) boardIndices) = 1%nat /\
  List.length (filter (isFood fedGame) boardIndices) = 1%nat.
Proof.
  split; [exact scriptedSource_unit|]. split; [exact fedGame_reachable|].
  exact (view_shows_every_segment scriptedSource fedGame scriptedSource_unit
           fedGame_reachable).
Defined.

Lemma snake_never_fills_board_witness :
  unitSource scriptedSource /\
  reachable scriptedSource fedGame /\
  hasFreeCell (snake fedGame) /\
  (List.length (snake fedGame) <= 399)%nat /\
  score fedGame <= 3960.
Proof.
  split; [exact scriptedSource_unit|]. split; [exact fedGame_reachable|].
  exact (snake_never_fills_board scriptedSource fedGame scriptedSource_unit
           fedGame_reachable).
Defined.

Lemma one_interval_while_running_witness :
  gameState fedGame = Running /\
  gameState pausedGame <> Running /\
  intervals (fst (runEffects [(mountedGame, 1%positive);
                              (fedGame, 2%positive)])) = [2%positive] /\
  intervals (fst (runEffects [(mountedGame, 1%positive);
                              (fedGame, 2%positive);
                              (pausedGame, 3%positive)])) = [].
Proof.
  assert (H : gameState pausedGame <> Running) by discriminate.
  split; [reflexivity|]. split; [exact H|]. split.
  - destruct (one_interval_while_running [(mountedGame, 1%positive)]
                fedGame 2%positive) as [Hrun _].
    exact (proj1 (Hrun eq_refl)).
  - destruct (one_interval_while_running
                [(mountedGame, 1%positive); (fedGame, 2%positive)]
                pausedGame 3%positive) as [_ [Hidle _]].
    exact (proj1 (Hidle H)).
Defined.

Lemma food_is_never_on_snake_witness :
  reachable scriptedSource fedGame /\
  unitSource scriptedSource /\
  ~ In (food fedGame) (snake fedGame) /\
  inGrid (food fedGame).
Proof.
  split; [exact fedGame_reachable|]. split; [exact scriptedSource_unit|].
  destruct (food_is_never_on_snake scriptedSource fedGame fedGame_reachable)
    as [A B].
  split; [exact A | exact (B scriptedSource_unit)].
Defined.

Lemma tick_keeps_course_witness :
  gameState runningGame = Running /\
  gameLoop scriptedSource 0 runningGame = Some fedGame /\
  directionRef fedGame = directionRef runningGame /\
  isPaused fedGame = isPaused runningGame /\
  gameStarted fedGame = gameStarted runningGame /\
  (gameOver fedGame = false ->
   hd {| x := 10; y := 10 |} (snake fedGame)
   = moveHead (directionRef runningGame) {| x := 10; y := 10 |} /\
   gameState fedGame = Running).
Proof.
  split; [reflexivity|]. split; [reflexivity|].
  exact (tick_keeps_course scriptedSource 0 runningGame fedGame
           {| x := 10; y := 10 |}
           [ {| x := 10; y := 11 |}; {| x := 10; y := 12 |} ]
           eq_refl eq_refl eq_refl).
Defined.

Lemma mount_only_places_food_witness :
  eventuallyFree scriptedSource 0 INITIAL_SNAKE /\
  (forall g,
      initFood scriptedSource 0 firstRender = Some g ->
      g = setFood (food g) (setDraws (draws g) firstRender) /\
      ~ In (food g) INITIAL_SNAKE /\
      gameState g = NotStarted) /\
  exists fuel' g, initFood scriptedSource fuel' firstRender = Some g.
Proof.
  assert (H : eventuallyFree scriptedSource 0 INITIAL_SNAKE)
    by (exists 0%nat; reflexivity).
  split; [exact H|].
  destruct (mount_only_places_food scriptedSource 0) as [A B].
  split; [exact A | exact (B H)].
Defined.
